(** * UUID package (spassigl/uuid): a shallow embedding and its properties

    The development follows the final revision of [uuid.go] (the one whose
    [UUID] struct is [{ u [16]byte }] and which the tests exercise), the
    namespace file, and the part of Go's [fmt] scanner that [Parse] runs.

    - Go [byte] values are integers in [0, 256); wrap-around of the fixed-width
      types ([uint16], [uint32], [byte]) is written out with [mod].
    - A Go [string] is a Rocq [string] (a sequence of bytes); the scanner
      reads it rune by rune through a UTF-8 decoder.
    - The process-wide variables [lastTime], [clockSeq] and [nodeId] form a
      record that every operation touching them takes and returns.
    - The clock and the random source are inputs of the operations that
      consult them. *)

From Stdlib Require Import ZArith String Ascii List Bool Lia.
Import ListNotations.
Open Scope Z_scope.

(** ** Bytes, arrays, strings *)

Definition byte := Z.
Definition rune := Z.

Definition isByte (b : Z) : bool := (0 <=? b) && (b <? 256).

(** [a[k] = v] on a Go array; [k] is always a constant index in range. *)
Fixpoint store (a : list byte) (k : nat) (v : byte) : list byte :=
  match a, k with
  | [], _ => []
  | _ :: t, O => v :: t
  | x :: t, S k' => x :: store t k' v
  end.

(** Go's builtin [copy(dst, src)]: the first [min(len dst, len src)] elements
    of [dst] are overwritten, the rest stay. *)
Fixpoint copy (dst src : list byte) : list byte :=
  match dst, src with
  | _ :: dt, s :: st => s :: copy dt st
  | _, _ => dst
  end.

(** [copy(a[k:], src)] *)
Definition copyAt (a : list byte) (k : nat) (src : list byte) : list byte :=
  firstn k a ++ copy (skipn k a) src.

Definition byteOfAscii (c : ascii) : byte := Z.of_N (N_of_ascii c).
Definition asciiOfByte (b : byte) : ascii := ascii_of_N (Z.to_N b).

(** [[]byte(s)] *)
Definition bytesOf (s : string) : list byte :=
  map byteOfAscii (list_ascii_of_string s).

(** ** The identifier *)

(** [type UUID struct { u [16]byte }] *)
Record UUID : Type := mkUUID { u : list byte }.

(** [type Namespace UUID] *)
Definition Namespace := UUID.

(** The values a Go variable of type [UUID] can hold. *)
Definition wfUUID (x : UUID) : bool :=
  (Nat.eqb (length (u x)) 16) && forallb isByte (u x).

(** [var NilUUID UUID]: the zero value. *)
Definition NilUUID : UUID := mkUUID (repeat 0 16).

Definition at_ (x : UUID) (i : nat) : byte := nth i (u x) 0.

(** ** [String]: [fmt.Sprintf] with sixteen [%02x] verbs *)

(** The digit for a nibble, from ["0123456789abcdef"]. *)
Definition hexDigitCode (n : Z) : byte := if n <? 10 then 48 + n else 87 + n.

Definition hexDigit (n : Z) : ascii := asciiOfByte (hexDigitCode n).

(** [%02x] applied to a [byte]: two lower-case digits, zero padded. *)
Definition fmt02x (b : byte) : string :=
  String (hexDigit (Z.shiftr b 4)) (String (hexDigit (Z.land b 15)) EmptyString).

Definition UUID_String (x : UUID) : string :=
  (fmt02x (at_ x 0) ++ fmt02x (at_ x 1) ++ fmt02x (at_ x 2) ++ fmt02x (at_ x 3)
   ++ "-" ++ fmt02x (at_ x 4) ++ fmt02x (at_ x 5)
   ++ "-" ++ fmt02x (at_ x 6) ++ fmt02x (at_ x 7)
   ++ "-" ++ fmt02x (at_ x 8) ++ fmt02x (at_ x 9)
   ++ "-" ++ fmt02x (at_ x 10) ++ fmt02x (at_ x 11) ++ fmt02x (at_ x 12)
   ++ fmt02x (at_ x 13) ++ fmt02x (at_ x 14) ++ fmt02x (at_ x 15))%string.

(** [func (u UUID) Version() byte { return u.u[6] >> 4 }] *)
Definition Version (x : UUID) : byte := Z.shiftr (at_ x 6) 4.

(** ** The scanner behind [fmt.Sscanf]

    [Parse] hands the string, the format and the addresses of the sixteen
    bytes to [fmt.Sscanf].  This section embeds what the scanner does for a
    format made of literal runes and [%<width>x] verbs with [*uint8]
    operands. *)

Module Scan.

(** *** Runes of a string ([unicode/utf8]) *)

Definition RuneError : rune := 0xFFFD.

(** The [first] and [acceptRanges] tables of [unicode/utf8]: for a leading
    byte, the length of the encoding and the range of the second byte. *)
Definition first (p0 : byte) : option (Z * Z * Z) :=
  if (0xC2 <=? p0) && (p0 <=? 0xDF) then Some (2, 0x80, 0xBF)
  else if p0 =? 0xE0 then Some (3, 0xA0, 0xBF)
  else if (0xE1 <=? p0) && (p0 <=? 0xEC) then Some (3, 0x80, 0xBF)
  else if p0 =? 0xED then Some (3, 0x80, 0x9F)
  else if (0xEE <=? p0) && (p0 <=? 0xEF) then Some (3, 0x80, 0xBF)
  else if p0 =? 0xF0 then Some (4, 0x90, 0xBF)
  else if (0xF1 <=? p0) && (p0 <=? 0xF3) then Some (4, 0x80, 0xBF)
  else if p0 =? 0xF4 then Some (4, 0x80, 0x8F)
  else None.

Definition isCont (b : byte) : bool := (0x80 <=? b) && (b <=? 0xBF).

Definition maskx (b : byte) : Z := Z.land b 0x3F.

(** The runes [ReadRune] yields one after the other: [utf8.DecodeRune] at
    each position, an invalid or truncated encoding giving [RuneError] and
    consuming one byte. *)
Fixpoint decodeRunes (p : list byte) : list rune :=
  match p with
  | [] => []
  | p0 :: t1 =>
    if p0 <? 0x80 then p0 :: decodeRunes t1
    else
      match first p0 with
      | None => RuneError :: decodeRunes t1
      | Some (sz, lo, hi) =>
        match t1 with
        | [] => RuneError :: decodeRunes t1
        | b1 :: t2 =>
          if (b1 <? lo) || (hi <? b1) then RuneError :: decodeRunes t1
          else if sz <=? 2 then
            Z.lor (Z.shiftl (Z.land p0 0x1F) 6) (maskx b1) :: decodeRunes t2
          else
            match t2 with
            | [] => RuneError :: decodeRunes t1
            | b2 :: t3 =>
              if negb (isCont b2) then RuneError :: decodeRunes t1
              else if sz <=? 3 then
                Z.lor (Z.lor (Z.shiftl (Z.land p0 0x0F) 12)
                             (Z.shiftl (maskx b1) 6)) (maskx b2)
                :: decodeRunes t3
              else
                match t3 with
                | [] => RuneError :: decodeRunes t1
                | b3 :: t4 =>
                  if negb (isCont b3) then RuneError :: decodeRunes t1
                  else
                    Z.lor (Z.lor (Z.lor (Z.shiftl (Z.land p0 0x07) 18)
                                        (Z.shiftl (maskx b1) 12))
                                 (Z.shiftl (maskx b2) 6)) (maskx b3)
                    :: decodeRunes t4
                end
            end
        end
      end
  end.

Definition runes (s : string) : list rune := decodeRunes (bytesOf s).

(** *** Character classes *)

(** [isSpace] of [fmt/scan.go]: the table of Unicode white space. *)
Definition isSpace (r : rune) : bool :=
  if 0x10000 <=? r then false
  else
    ((0x0009 <=? r) && (r <=? 0x000d))
    || (r =? 0x0020) || (r =? 0x0085) || (r =? 0x00a0) || (r =? 0x1680)
    || ((0x2000 <=? r) && (r <=? 0x200a))
    || ((0x2028 <=? r) && (r <=? 0x2029))
    || (r =? 0x202f) || (r =? 0x205f) || (r =? 0x3000).

(** Membership in [hexadecimalDigits = "0123456789aAbBcCdDeEfF"]. *)
Definition isHexDigit (r : rune) : bool :=
  ((48 <=? r) && (r <=? 57))
  || ((97 <=? r) && (r <=? 102))
  || ((65 <=? r) && (r <=? 70)).

(** The value [strconv.ParseUint] gives a digit in base 16. *)
Definition hexVal (r : rune) : Z :=
  if (48 <=? r) && (r <=? 57) then r - 48
  else if (97 <=? r) && (r <=? 102) then r - 97 + 10
  else r - 65 + 10.

(** *** Reader state and errors *)

(** The part of [ss] the scan depends on: the unread runes and [count],
    the number of runes consumed so far. *)
Record ss : Type := mkSS { rs : list rune; count : Z }.

Inductive scanError : Type :=
| ErrEOF              (* io.EOF *)
| ErrUnexpectedEOF    (* io.ErrUnexpectedEOF *)
| ErrNewline          (* "unexpected newline" *)
| ErrExpectedInteger  (* "expected integer" *)
| ErrNoMatch          (* "input does not match format" *)
| ErrRange            (* strconv: value out of range *)
| ErrOverflow         (* "unsigned integer overflow on token" *)
| ErrTooFew           (* "too few operands for format" *)
| ErrTooMany.         (* "too many operands" *)

Inductive result (A : Type) : Type :=
| Ok (a : A)
| Err (e : scanError).
Arguments Ok {A} a.
Arguments Err {A} e.

Definition bind {A B} (m : result A) (k : A -> result B) : result B :=
  match m with
  | Ok a => k a
  | Err e => Err e
  end.

Notation "x <- m ;; k" := (bind m (fun x => k))
  (at level 61, m at next level, right associativity).

(** [const hugeWid = 1 << 30], the value of [s.limit]. *)
Definition hugeWid : Z := 2 ^ 30.

Definition newScanState (input : list rune) : ss := mkSS input 0.

(** [s.peek("\n")] with the reader at [inp], [cnt]. *)
Definition peekNewline (argLimit : Z) (inp : list rune) (cnt : Z) : bool :=
  if argLimit <=? cnt then false
  else match inp with
       | 10 :: _ => true
       | _ => false
       end.

(** [SkipSpace] for [Sscanf], where [nlIsSpace] is false: white space is
    skipped, a newline is an error, and the first other rune is unread. *)
Fixpoint SkipSpace (argLimit : Z) (inp : list rune) (cnt : Z) : result ss :=
  if argLimit <=? cnt then Ok (mkSS inp cnt)
  else
    match inp with
    | [] => Ok (mkSS [] cnt)
    | r :: t =>
      if (r =? 13) && peekNewline argLimit t (cnt + 1)
      then SkipSpace argLimit t (cnt + 1)
      else if r =? 10 then Err ErrNewline
      else if isSpace r then SkipSpace argLimit t (cnt + 1)
      else Ok (mkSS inp cnt)
    end.

(** [notEOF]: panics with [io.EOF] when no rune can be read. *)
Definition notEOF (argLimit : Z) (s : ss) : result unit :=
  if argLimit <=? count s then Err ErrEOF
  else match rs s with
       | [] => Err ErrEOF
       | _ :: _ => Ok tt
       end.

(** [for s.accept(digits) { }]: digits are moved to [buf] until a rune
    that is no digit, the end of the input or the width limit. *)
Fixpoint acceptDigits (argLimit : Z) (inp : list rune) (cnt : Z)
         (buf : list rune) : list rune * ss :=
  if argLimit <=? cnt then (buf, mkSS inp cnt)
  else
    match inp with
    | [] => (buf, mkSS [] cnt)
    | r :: t =>
      if isHexDigit r then acceptDigits argLimit t (cnt + 1) (buf ++ [r])
      else (buf, mkSS inp cnt)
    end.

(** [scanNumber(digits, false)] *)
Definition scanNumber (argLimit : Z) (s : ss) : result (list rune * ss) :=
  _ <- notEOF argLimit s ;;
  match rs s with
  | r :: t =>
    if isHexDigit r
    then Ok (acceptDigits argLimit t (count s + 1) [r])
    else Err ErrExpectedInteger
  | [] => Err ErrExpectedInteger
  end.

(** [strconv.ParseUint(tok, 16, 64)] on a token of hex digits. *)
Definition ParseUint (tok : list rune) : result Z :=
  let n := fold_left (fun acc r => acc * 16 + hexVal r) tok 0 in
  match tok with
  | [] => Err ErrRange
  | _ => if 2 ^ 64 <=? n then Err ErrRange else Ok n
  end.

(** [scanUint('x', 8)], the case [*uint8] of [scanOne]. *)
Definition scanUint8 (argLimit : Z) (s : ss) : result (byte * ss) :=
  s1 <- SkipSpace argLimit (rs s) (count s) ;;
  _ <- notEOF argLimit s1 ;;
  ts <- scanNumber argLimit s1 ;;
  i <- ParseUint (fst ts) ;;
  if i mod 2 ^ 8 =? i then Ok (i, snd ts) else Err ErrOverflow.

(** *** Formats *)

(** A format as [doScanf] walks it: a literal rune, or [%<maxWid>x]. *)
Inductive directive : Type :=
| Lit (c : rune)
| HexVerb (maxWid : Z).

(** One literal of the format, in [advance]: [mustReadRune] and compare. *)
Definition advanceLit (c : rune) (s : ss) : result ss :=
  if hugeWid <=? count s then Err ErrUnexpectedEOF
  else match rs s with
       | [] => Err ErrUnexpectedEOF
       | r :: t => if r =? c then Ok (mkSS t (count s + 1)) else Err ErrNoMatch
       end.

(** One verb, in [doScanf]: skip space up to [s.limit], set [s.argLimit]
    to [min(s.limit, s.count + s.maxWid)], scan the operand. *)
Definition scanVerb (maxWid : Z) (s : ss) : result (byte * ss) :=
  s1 <- SkipSpace hugeWid (rs s) (count s) ;;
  scanUint8 (Z.min hugeWid (count s1 + maxWid)) s1.

(** [doScanf]: operand number [k] of the call is the array element
    [a[k]]; each scanned value is stored at once, so what was stored
    before an error stays stored.  The result is the array, the number of
    operands processed and the error, if any. *)
Fixpoint doScanf (format : list directive) (a : list byte)
         (numProcessed : nat) (s : ss) : list byte * nat * option scanError :=
  match format with
  | [] =>
    if Nat.ltb numProcessed (length a)
    then (a, numProcessed, Some ErrTooMany)
    else (a, numProcessed, None)
  | Lit c :: format' =>
    match advanceLit c s with
    | Ok s' => doScanf format' a numProcessed s'
    | Err e => (a, numProcessed, Some e)
    end
  | HexVerb w :: format' =>
    match SkipSpace hugeWid (rs s) (count s) with
    | Err e => (a, numProcessed, Some e)
    | Ok s1 =>
      if Nat.leb (length a) numProcessed
      then (a, numProcessed, Some ErrTooFew)
      else
        match scanUint8 (Z.min hugeWid (count s1 + w)) s1 with
        | Ok (v, s') => doScanf format' (store a numProcessed v)
                                (S numProcessed) s'
        | Err e => (a, numProcessed, Some e)
        end
    end
  end.

(** [Sscanf(str, format, a...)] *)
Definition Sscanf (str : string) (format : list directive) (a : list byte)
  : list byte * nat * option scanError :=
  doScanf format a 0 (newScanState (runes str)).

End Scan.

(** ** [Parse] *)

(** ["%02x%02x%02x%02x-%02x%02x-%02x%02x-%02x%02x-%02x%02x%02x%02x%02x%02x"] *)
Definition uuidFormat : list Scan.directive :=
  let x := Scan.HexVerb 2 in
  let dash := Scan.Lit 45 in
  [x; x; x; x; dash; x; x; dash; x; x; dash; x; x; dash; x; x; x; x; x; x].

(** [func (u *UUID) Parse(s string) bool]: the receiver after the call and
    the returned value, which is [err != nil]. *)
Definition UUID_Parse (x : UUID) (s : string) : UUID * bool :=
  match Scan.Sscanf s uuidFormat (u x) with
  | (a, _, Some _) => (mkUUID a, true)
  | (a, _, None) => (mkUUID a, false)
  end.

(** [func Parse(s string) (UUID, bool)]: [var u UUID; err := u.Parse(s);
    return u, err]. *)
Definition Parse (s : string) : UUID * bool := UUID_Parse NilUUID s.

(** ** Generation state *)

(** Conversions of Go: the value modulo the width of the target type;
    [int64] is signed. *)
Definition toByte (x : Z) : Z := x mod 2 ^ 8.
Definition uint16 (x : Z) : Z := x mod 2 ^ 16.
Definition uint32 (x : Z) : Z := x mod 2 ^ 32.
Definition int64 (x : Z) : Z := (x + 2 ^ 63) mod 2 ^ 64 - 2 ^ 63.

(** [var ( lastTime int64; clockSeq uint16; nodeId [6]byte )] *)
Record genState : Type :=
  mkState { lastTime : Z; clockSeq : Z; nodeId : list byte }.

(** The variables before [init] runs: zero values. *)
Definition zeroState : genState := mkState 0 0 (repeat 0 6).

(** [rand.Read(b)]: the slice is filled with the bytes the source gives. *)
Definition randRead (b : list byte) (random : list byte) : list byte :=
  copy b random.

(** [func initNodeId() { rand.Read(nodeId[:]); nodeId[5] |= 1 }] *)
Definition initNodeId (random : list byte) (st : genState) : genState :=
  let n := randRead (nodeId st) random in
  mkState (lastTime st) (clockSeq st) (store n 5 (Z.lor (nth 5 n 0) 1)).

(** [func initClockSeq()] *)
Definition initClockSeq (random : list byte) (st : genState) : genState :=
  let cs := randRead [0; 0] random in
  let c := uint16 (uint16 (nth 1 cs 0) + uint16 (Z.shiftl (uint16 (nth 0 cs 0)) 8)) in
  let c := Z.land c 0x3FFF in
  mkState (lastTime st) c (nodeId st).

(** [func init() { initNodeId(); initClockSeq() }] *)
Definition init (randomNode randomClock : list byte) : genState :=
  initClockSeq randomClock (initNodeId randomNode zeroState).

Definition OFFSETNS : Z := 122192928000000000.

(** [func getTimestampV1() int64]; [unixNano] is what
    [time.Now().UTC().UnixNano()] returns. *)
Definition getTimestampV1 (unixNano : Z) (st : genState) : Z * genState :=
  let t := Z.quot unixNano 100 in
  let t := int64 (t + OFFSETNS) in
  let cs := if t <=? lastTime st
            then Z.land (uint16 (clockSeq st + 1)) 0x3FFF
            else clockSeq st in
  (t, mkState t cs (nodeId st)).

(** ** Generators *)

(** [func (u *UUID) GenerateV1()] *)
Definition UUID_GenerateV1 (x : UUID) (unixNano : Z) (st : genState)
  : UUID * genState :=
  let (ts, st) := getTimestampV1 unixNano st in
  let a := u x in
  let a := store a 0 (toByte (Z.shiftr (uint32 ts) 24)) in
  let a := store a 1 (toByte (Z.shiftr (uint32 ts) 16)) in
  let a := store a 2 (toByte (Z.shiftr (uint32 ts) 8)) in
  let a := store a 3 (toByte (uint32 ts)) in
  let t := uint16 (Z.land (Z.shiftr ts 32) 0xFFFF) in
  let a := store a 4 (toByte (Z.shiftr t 8)) in
  let a := store a 5 (toByte t) in
  let t := uint16 (Z.lor (Z.land (Z.shiftr ts 48) 0x0FFF) 0x1000) in
  let a := store a 6 (toByte (Z.shiftr t 8)) in
  let a := store a 7 (toByte t) in
  let cs := Z.lor (Z.land (clockSeq st) 0x3fff) 0x8000 in
  let a := store a 8 (toByte (Z.shiftr cs 8)) in
  let a := store a 9 (toByte cs) in
  let a := copyAt a 10 (nodeId st) in
  (mkUUID a, st).

(** [func GenerateV1() UUID] *)
Definition GenerateV1 (unixNano : Z) (st : genState) : UUID * genState :=
  UUID_GenerateV1 NilUUID unixNano st.

(** The version and variant bits, as every generator but the first sets
    them: [u.u[6] &= 0x0f; u.u[6] |= v; u.u[8] &= 0x3f; u.u[8] |= 0x80]. *)
Definition stamp (v : Z) (a : list byte) : list byte :=
  let a := store a 6 (Z.land (nth 6 a 0) 0x0f) in
  let a := store a 6 (Z.lor (nth 6 a 0) v) in
  let a := store a 8 (Z.land (nth 8 a 0) 0x3f) in
  let a := store a 8 (Z.lor (nth 8 a 0) 0x80) in
  a.

(** [func (u *UUID) GenerateV4()] *)
Definition UUID_GenerateV4 (x : UUID) (random : list byte) : UUID :=
  mkUUID (stamp 0x40 (randRead (u x) random)).

(** [func GenerateV4() UUID] *)
Definition GenerateV4 (random : list byte) : UUID :=
  UUID_GenerateV4 NilUUID random.

Section NameBased.

(** [crypto/md5] and [crypto/sha1]: the digest of the bytes written. *)
Variable md5sum : list byte -> list byte.
Variable sha1sum : list byte -> list byte.

(** [func (u *UUID) GenerateV3(ns Namespace, name string)] *)
Definition UUID_GenerateV3 (x : UUID) (ns : Namespace) (name : string) : UUID :=
  if negb (Nat.eqb (length (u ns)) 16) || Nat.eqb (String.length name) 0
  then x
  else
    let h := md5sum (u ns ++ bytesOf name) in
    mkUUID (stamp 0x30 (copy (u x) h)).

(** [func GenerateV3(ns Namespace, name string) UUID] *)
Definition GenerateV3 (ns : Namespace) (name : string) : UUID :=
  UUID_GenerateV3 NilUUID ns name.

(** [func (u *UUID) GenerateV5(ns Namespace, name string)] *)
Definition UUID_GenerateV5 (x : UUID) (ns : Namespace) (name : string) : UUID :=
  if negb (Nat.eqb (length (u ns)) 16) || Nat.eqb (String.length name) 0
  then x
  else
    let h := sha1sum (u ns ++ bytesOf name) in
    mkUUID (stamp 0x50 (copy (u x) h)).

(** [func GenerateV5(ns Namespace, name string) UUID] *)
Definition GenerateV5 (ns : Namespace) (name : string) : UUID :=
  UUID_GenerateV5 NilUUID ns name.

End NameBased.

(** ** Predefined namespaces *)

Definition Namespace_DNS : Namespace :=
  mkUUID [0x6b; 0xa7; 0xb8; 0x10; 0x9d; 0xad; 0x11; 0xd1;
          0x80; 0xb4; 0x00; 0xc0; 0x4f; 0xd4; 0x30; 0xc8].

Definition Namespace_URL : Namespace :=
  mkUUID [0x6b; 0xa7; 0xb8; 0x11; 0x9d; 0xad; 0x11; 0xd1;
          0x80; 0xb4; 0x00; 0xc0; 0x4f; 0xd4; 0x30; 0xc8].

Definition Namespace_OID : Namespace :=
  mkUUID [0x6b; 0xa7; 0xb8; 0x12; 0x9d; 0xad; 0x11; 0xd1;
          0x80; 0xb4; 0x00; 0xc0; 0x4f; 0xd4; 0x30; 0xc8].

Definition Namespace_X500 : Namespace :=
  mkUUID [0x6b; 0xa7; 0xb8; 0x14; 0x9d; 0xad; 0x11; 0xd1;
          0x80; 0xb4; 0x00; 0xc0; 0x4f; 0xd4; 0x30; 0xc8].

(** ** Programs: sequences of generator calls

    A call names the generator, its arguments and what the clock or the
    random source delivers to it; it runs on a receiver and on the
    generation state.  The mutex makes every call atomic, so a concurrent
    execution is one of these sequences. *)

Inductive call : Type :=
| CallV1 (unixNano : Z)
| CallV3 (ns : Namespace) (name : string)
| CallV4 (random : list byte)
| CallV5 (ns : Namespace) (name : string).

Definition isV1 (c : call) : bool :=
  match c with
  | CallV1 _ => true
  | _ => false
  end.

Section Programs.

Variable md5sum : list byte -> list byte.
Variable sha1sum : list byte -> list byte.

Definition exec (c : call) (x : UUID) (st : genState) : UUID * genState :=
  match c with
  | CallV1 unixNano => UUID_GenerateV1 x unixNano st
  | CallV3 ns name => (UUID_GenerateV3 md5sum x ns name, st)
  | CallV4 random => (UUID_GenerateV4 x random, st)
  | CallV5 ns name => (UUID_GenerateV5 sha1sum x ns name, st)
  end.

(** The calls of a program, each with its receiver, run in order; the
    result lists every call with the identifier it left in its receiver. *)
Fixpoint run (prog : list (UUID * call)) (st : genState)
  : list (call * UUID) * genState :=
  match prog with
  | [] => ([], st)
  | (x, c) :: rest =>
    let (r, st1) := exec c x st in
    let (out, st2) := run rest st1 in
    ((c, r) :: out, st2)
  end.

End Programs.

(** ** What the specification says of name-based identifiers

    Follows the specification's words, for comparison with the generators:
    the leading 16 bytes of the digest, with the version nibble of byte 6
    and the top two bits of byte 8 overwritten. *)

(** The top [n] bits of a byte replaced by [pattern], the others kept. *)
Definition overwriteTop (n : Z) (pattern : Z) (b : byte) : byte :=
  pattern * 2 ^ (8 - n) + b mod 2 ^ (8 - n).

Definition specNameBased (version : Z) (digest : list byte) : list byte :=
  let d := firstn 16 digest in
  let d := store d 6 (overwriteTop 4 version (nth 6 digest 0)) in
  store d 8 (overwriteTop 2 2 (nth 8 digest 0)).

(** The variant field: the top two bits of byte 8. *)
Definition Variant (x : UUID) : Z := Z.shiftr (at_ x 8) 6.

(** ** The canonical textual form

    Follows the specification's words: 36 characters, lower-case hex digits
    everywhere but at the four hyphen positions. *)

Definition isLowerHex (c : ascii) : bool :=
  let n := byteOfAscii c in
  ((48 <=? n) && (n <=? 57)) || ((97 <=? n) && (n <=? 102)).

Definition isHyphenPos (i : nat) : bool :=
  Nat.eqb i 8 || Nat.eqb i 13 || Nat.eqb i 18 || Nat.eqb i 23.

Fixpoint canonicalFrom (i : nat) (s : string) : bool :=
  match s with
  | EmptyString => Nat.eqb i 36
  | String c t =>
    (if isHyphenPos i then Z.eqb (byteOfAscii c) 45 else isLowerHex c)
    && canonicalFrom (S i) t
  end.

Definition canonical (s : string) : bool := canonicalFrom 0 s.

(** ** The inputs [Parse] takes

    A description of the language of the format, to compare the scanner
    with: a byte field is white space without a newline, then one or two
    hex digits of either case, two whenever a second one follows; fields
    and literals follow one another as in the format; what comes after the
    last field is not looked at. *)

Module Lenient.

Definition blank (r : rune) : Prop := Scan.isSpace r = true /\ r <> 10.

Definition stops (rest : list rune) : Prop :=
  match rest with
  | [] => True
  | r :: _ => Scan.isHexDigit r = false
  end.

Inductive field : list rune -> list rune -> Prop :=
| field_one ws d rest :
    Forall blank ws -> Scan.isHexDigit d = true -> stops rest ->
    field (ws ++ d :: rest) rest
| field_two ws d1 d2 rest :
    Forall blank ws -> Scan.isHexDigit d1 = true ->
    Scan.isHexDigit d2 = true ->
    field (ws ++ d1 :: d2 :: rest) rest.

Inductive matches : list Scan.directive -> list rune -> list rune -> Prop :=
| matches_nil s : matches [] s s
| matches_lit c format s rest :
    matches format s rest -> matches (Scan.Lit c :: format) (c :: s) rest
| matches_hex format s s' rest :
    field s s' -> matches format s' rest ->
    matches (Scan.HexVerb 2 :: format) s rest.

Definition accepted (s : string) : Prop :=
  exists rest, matches uuidFormat (Scan.runes s) rest.

End Lenient.

(** ** Notions used to reason about the scanner *)

Module ScanSpec.
Import Scan.

(** The reader never meets [s.limit] on inputs of at most [hugeWid] runes. *)
Definition fits (inp : list rune) (cnt : Z) : Prop :=
  cnt + Z.of_nat (length inp) <= hugeWid.

Definition startsNonSpace (l : list rune) : Prop :=
  match l with
  | [] => True
  | r :: _ => isSpace r = false
  end.

(** What one operand scan does once the white space before it is gone. *)
Definition fieldAt (inp : list rune) (cnt : Z) : result (byte * ss) :=
  match inp with
  | [] => Err ErrEOF
  | d1 :: t =>
    if isHexDigit d1 then
      match t with
      | [] => Ok (hexVal d1, mkSS [] (cnt + 1))
      | d2 :: t' =>
        if isHexDigit d2
        then Ok (hexVal d1 * 16 + hexVal d2, mkSS t' (cnt + 2))
        else Ok (hexVal d1, mkSS t (cnt + 1))
      end
    else Err ErrExpectedInteger
  end.

(** The number of operands a format consumes. *)
Fixpoint countVerbs (format : list directive) : nat :=
  match format with
  | [] => 0
  | Lit _ :: f => countVerbs f
  | HexVerb _ :: f => S (countVerbs f)
  end.


(** The number of literals of a format, and "its literals are all [c]". *)
Fixpoint countLits (format : list directive) : nat :=
  match format with
  | [] => 0
  | Lit _ :: f => S (countLits f)
  | HexVerb _ :: f => countLits f
  end.

Definition litIs (c : rune) (d : directive) : Prop :=
  match d with
  | Lit c' => c' = c
  | HexVerb _ => True
  end.

(** The verbs of the format all have width 2. *)
Definition width2 (d : directive) : Prop :=
  match d with
  | Lit _ => True
  | HexVerb w => w = 2
  end.

End ScanSpec.

(** ** Earlier revisions

    The first revisions of [GenerateV1] did the clock check themselves,
    with [<] where the final [getTimestampV1] has [<=]:
    [if ts < lastTime { clockSeq = (clockSeq + 1) & 0x3FFF }; lastTime = ts]. *)

Module Draft.

Definition stampClock (ts : Z) (st : genState) : genState :=
let cs := if ts <? lastTime st
          then Z.land (uint16 (clockSeq st + 1)) 0x3FFF
          else clockSeq st in
mkState ts cs (nodeId st).

End Draft.

(** ** Sample inputs

    Stand-ins for the digest functions, of the right output length, and a
    generation state, for running the generators on concrete inputs. *)

Module Sample.

Definition digest16 (m : list byte) : list byte :=
firstn 16 (rev m ++ repeat 255 16).

Definition digest20 (m : list byte) : list byte :=
firstn 20 (rev m ++ repeat 255 20).

Definition state : genState := init [1; 2; 3; 4; 5; 6] [7; 8].

Definition now : Z := 1500000000000000000.

Definition program : list (UUID * call) :=
[ (NilUUID, CallV1 now);
  (NilUUID, CallV4 (repeat 255 16));
  (Namespace_URL, CallV3 Namespace_DNS "a");
  (NilUUID, CallV1 now);
  (NilUUID, CallV5 Namespace_DNS "a");
  (NilUUID, CallV1 (now + 100)) ].

End Sample.

(** ** Reading an identifier

    The fields as the layout comment at the head of [uuid.go] places them:
    [time_low] in octets 0-3, [time_mid] in 4-5, [time_hi_and_version] in
    6-7 (the version in the top nibble of octet 6), the clock sequence in
    8-9 (the variant in the top two bits of octet 8), the node in 10-15;
    every field most significant octet first. *)

Definition timestampOf (x : UUID) : Z :=
  (at_ x 6 mod 16) * 2 ^ 56 + at_ x 7 * 2 ^ 48
  + at_ x 4 * 2 ^ 40 + at_ x 5 * 2 ^ 32
  + at_ x 0 * 2 ^ 24 + at_ x 1 * 2 ^ 16 + at_ x 2 * 2 ^ 8 + at_ x 3.

Definition clockSeqOf (x : UUID) : Z := (at_ x 8 mod 64) * 2 ^ 8 + at_ x 9.

Definition nodeOf (x : UUID) : list byte := skipn 10 (u x).

(** ** Values the variables can hold *)

(** [clockSeq] as [init] and the generator leave it (14 bits) and [nodeId]
    as a [[6]byte]. *)
Definition wfState (st : genState) : bool :=
  (0 <=? clockSeq st) && (clockSeq st <? 2 ^ 14)
  && Nat.eqb (length (nodeId st)) 6 && forallb isByte (nodeId st).

(** What [time.Now().UTC().UnixNano()] can return: an [int64]. *)
Definition isInt64 (x : Z) : bool := (- 2 ^ 63 <=? x) && (x <? 2 ^ 63).

(** The random source delivers bytes. *)
Definition validCall (c : call) : bool :=
  match c with
  | CallV4 random => forallb isByte random
  | _ => true
  end.

(** ** The first revision of [uuid.go]

    [type UUID struct { b [16]byte; v byte }]: the version is kept in a field
    of its own, [getTimestampV1] only reads the clock, and [Parse] is not
    written yet. *)

Module Draft1.

(** The sixteen [%02x] of [String], on the byte array. *)
Definition String16 (a : list byte) : string := UUID_String (mkUUID a).

Record UUID : Type := mkUUID { b : list byte; v : byte }.

(** [func getTimestampV1() int64] *)
Definition getTimestampV1 (unixNano : Z) : Z :=
  let t := Z.quot unixNano 100 in
  int64 (t + OFFSETNS).

(** [func (u *UUID) GenerateV1() *UUID] *)
Definition UUID_GenerateV1 (x : UUID) (unixNano : Z) (st : genState)
  : UUID * genState :=
  let ts := getTimestampV1 unixNano in
  let st := Draft.stampClock ts st in
  let a := b x in
  let a := store a 0 (toByte (Z.shiftr (uint32 ts) 24)) in
  let a := store a 1 (toByte (Z.shiftr (uint32 ts) 16)) in
  let a := store a 2 (toByte (Z.shiftr (uint32 ts) 8)) in
  let a := store a 3 (toByte (uint32 ts)) in
  let t := uint16 (Z.land (Z.shiftr ts 32) 0xFFFF) in
  let a := store a 4 (toByte (Z.shiftr t 8)) in
  let a := store a 5 (toByte t) in
  let t := uint16 (Z.lor (Z.land (Z.shiftr ts 48) 0x0FFF) 0x1000) in
  let a := store a 6 (toByte (Z.shiftr t 8)) in
  let a := store a 7 (toByte t) in
  let cs := Z.lor (Z.land (clockSeq st) 0x3fff) 0x8000 in
  let a := store a 8 (toByte (Z.shiftr cs 8)) in
  let a := store a 9 (toByte cs) in
  let a := copyAt a 10 (nodeId st) in
  (mkUUID a 1, st).

(** [func (u *UUID) GenerateV4() *UUID] *)
Definition UUID_GenerateV4 (x : UUID) (random : list byte) : UUID :=
  let a := randRead (b x) random in
  let a := store a 8 (Z.land (nth 8 a 0) 0x3f) in
  let a := store a 8 (Z.lor (nth 8 a 0) 0x80) in
  let a := store a 6 (Z.land (nth 6 a 0) 0x0f) in
  let a := store a 6 (Z.lor (nth 6 a 0) 0x40) in
  mkUUID a 4.

(** [func (u UUID) String() string]: the same sixteen [%02x]. *)
Definition UUID_String (x : UUID) : string :=
  String16 (b x).

(** [func (u UUID) Version() byte { return u.v }] *)
Definition Version (x : UUID) : byte := v x.

(** [func (u *UUID) Parse(s string) bool { return true }] *)
Definition UUID_Parse (x : UUID) (s : string) : UUID * bool := (x, true).

End Draft1.

(** ** The second revision (the file without a name)

    [type UUID struct { tl [4]byte; tm [2]byte; thv [2]byte; csh [1]byte;
    csl [1]byte; n [6]byte }]: one array per field of the layout.  The
    clock check is still the one of the first revision; [Parse] is the
    [Sscanf] call, with the addresses of the sixteen field bytes in layout
    order as operands. *)

Module Draft2.

Record UUID : Type :=
  mkUUID { tl : list byte; tm : list byte; thv : list byte;
           csh : list byte; csl : list byte; n : list byte }.

(** The values a variable of this type can hold. *)
Definition wf (x : UUID) : bool :=
  Nat.eqb (length (tl x)) 4 && Nat.eqb (length (tm x)) 2
  && Nat.eqb (length (thv x)) 2 && Nat.eqb (length (csh x)) 1
  && Nat.eqb (length (csl x)) 1 && Nat.eqb (length (n x)) 6
  && forallb isByte (tl x) && forallb isByte (tm x)
  && forallb isByte (thv x) && forallb isByte (csh x)
  && forallb isByte (csl x) && forallb isByte (n x).

(** The sixteen bytes in layout order, and back. *)
Definition flat (x : UUID) : list byte :=
  tl x ++ tm x ++ thv x ++ csh x ++ csl x ++ n x.

Definition unflat (a : list byte) : UUID :=
  mkUUID (firstn 4 a) (firstn 2 (skipn 4 a)) (firstn 2 (skipn 6 a))
         (firstn 1 (skipn 8 a)) (firstn 1 (skipn 9 a)) (skipn 10 a).

(** [func (u *UUID) GenerateV1() *UUID] *)
Definition UUID_GenerateV1 (x : UUID) (unixNano : Z) (st : genState)
  : UUID * genState :=
  let ts := Draft1.getTimestampV1 unixNano in
  let st := Draft.stampClock ts st in
  let l := tl x in
  let l := store l 0 (toByte (Z.shiftr (uint32 ts) 24)) in
  let l := store l 1 (toByte (Z.shiftr (uint32 ts) 16)) in
  let l := store l 2 (toByte (Z.shiftr (uint32 ts) 8)) in
  let l := store l 3 (toByte (uint32 ts)) in
  let t := uint16 (Z.land (Z.shiftr ts 32) 0xFFFF) in
  let m := tm x in
  let m := store m 0 (toByte (Z.shiftr t 8)) in
  let m := store m 1 (toByte t) in
  let t := uint16 (Z.lor (Z.land (Z.shiftr ts 48) 0x0FFF) 0x1000) in
  let h := thv x in
  let h := store h 0 (toByte (Z.shiftr t 8)) in
  let h := store h 1 (toByte t) in
  let cs := Z.lor (Z.land (clockSeq st) 0x3fff) 0x8000 in
  let ch := store (csh x) 0 (toByte (Z.shiftr cs 8)) in
  let cl := store (csl x) 0 (toByte cs) in
  let nd := copy (n x) (nodeId st) in
  (mkUUID l m h ch cl nd, st).

(** [func (u *UUID) GenerateV4() *UUID]: six calls of [rand.Read], one per
    field, each with the bytes the source delivers to it. *)
Definition UUID_GenerateV4 (x : UUID) (r1 r2 r3 r4 r5 r6 : list byte) : UUID :=
  let l := randRead (tl x) r1 in
  let m := randRead (tm x) r2 in
  let h := randRead (thv x) r3 in
  let ch := randRead (csh x) r4 in
  let cl := randRead (csl x) r5 in
  let nd := randRead (n x) r6 in
  let h := store h 0 (Z.land (nth 0 h 0) 0x0f) in
  let h := store h 0 (Z.lor (nth 0 h 0) 0x40) in
  let ch := store ch 0 (Z.land (nth 0 ch 0) 0x3f) in
  let ch := store ch 0 (Z.lor (nth 0 ch 0) 0x80) in
  mkUUID l m h ch cl nd.

(** [func GenerateV4() UUID] *)
Definition GenerateV4 (r1 r2 r3 r4 r5 r6 : list byte) : UUID :=
  UUID_GenerateV4 (unflat (repeat 0 16)) r1 r2 r3 r4 r5 r6.

(** [func (u UUID) String() string] *)
Definition UUID_String (x : UUID) : string :=
  (fmt02x (nth 0 (tl x) 0) ++ fmt02x (nth 1 (tl x) 0)
   ++ fmt02x (nth 2 (tl x) 0) ++ fmt02x (nth 3 (tl x) 0)
   ++ "-" ++ fmt02x (nth 0 (tm x) 0) ++ fmt02x (nth 1 (tm x) 0)
   ++ "-" ++ fmt02x (nth 0 (thv x) 0) ++ fmt02x (nth 1 (thv x) 0)
   ++ "-" ++ fmt02x (nth 0 (csh x) 0) ++ fmt02x (nth 0 (csl x) 0)
   ++ "-" ++ fmt02x (nth 0 (n x) 0) ++ fmt02x (nth 1 (n x) 0)
   ++ fmt02x (nth 2 (n x) 0) ++ fmt02x (nth 3 (n x) 0)
   ++ fmt02x (nth 4 (n x) 0) ++ fmt02x (nth 5 (n x) 0))%string.

(** [func (u UUID) Version() byte { return u.thv[0] >> 4 }] *)
Definition Version (x : UUID) : byte := Z.shiftr (nth 0 (thv x) 0) 4.

(** [func (u *UUID) Parse(s string) bool]: operand [k] of [Sscanf] is the
    [k]-th byte in layout order. *)
Definition UUID_Parse (x : UUID) (s : string) : UUID * bool :=
  match Scan.Sscanf s uuidFormat (flat x) with
  | (a, _, Some _) => (unflat a, true)
  | (a, _, None) => (unflat a, false)
  end.

(** [func Parse(s string) (UUID, bool)] *)
Definition Parse (s : string) : UUID * bool :=
  UUID_Parse (unflat (repeat 0 16)) s.

End Draft2.

(** ** The identifier a canonical string denotes

    The two hex digits at each of the sixteen byte positions of the
    [8-4-4-4-12] form, as one byte. *)

Definition nibbleAt (s : string) (i : nat) : Z :=
  match String.get i s with
  | Some c => Scan.hexVal (byteOfAscii c)
  | None => 0
  end.

Definition canonicalBytes (s : string) : list byte :=
  map (fun i => nibbleAt s i * 16 + nibbleAt s (S i))
      [0; 2; 4; 6; 9; 11; 14; 16; 19; 21; 24; 26; 28; 30; 32; 34]%nat.

(** * Properties *)

(** ** Arrays *)

Lemma length_store a k v : length (store a k v) = length a.
Proof.
  revert k; induction a as [|h t IH]; intros [|k]; simpl; auto.
Qed.

Lemma nth_store_same a k v d :
  (k < length a)%nat -> nth k (store a k v) d = v.
Proof.
  revert k; induction a as [|h t IH]; intros [|k] Hk; simpl in *;
    try lia; auto.
  apply IH; lia.
Qed.

Lemma nth_store_other a k v d i :
  i <> k -> nth i (store a k v) d = nth i a d.
Proof.
  revert k i; induction a as [|h t IH]; intros [|k] [|i] Hik; simpl;
    auto; try congruence.
Qed.

Lemma length_copy dst src : length (copy dst src) = length dst.
Proof.
  revert src; induction dst as [|h t IH]; intros [|s src]; simpl; auto.
Qed.

Lemma length_copyAt a k src : length (copyAt a k src) = length a.
Proof.
  unfold copyAt.
  rewrite length_app, length_copy, <- length_app, firstn_skipn.
  reflexivity.
Qed.

Lemma nth_copyAt_before a k src d i :
  (i < k)%nat -> (k <= length a)%nat ->
  nth i (copyAt a k src) d = nth i a d.
Proof.
  intros Hi Hk. unfold copyAt.
  rewrite app_nth1 by (rewrite length_firstn; lia).
  rewrite nth_firstn.
  destruct (Nat.ltb_spec i k); [reflexivity | lia].
Qed.

Lemma copy_covers dst src :
  (length dst <= length src)%nat -> copy dst src = firstn (length dst) src.
Proof.
  revert src; induction dst as [|h t IH]; intros [|s src] H; simpl in *;
    try lia; auto.
  f_equal. apply IH. lia.
Qed.

(** Checking a property of a bounded integer by running through the range. *)
Lemma forall_below (P : Z -> bool) (n : nat) :
  forallb P (map Z.of_nat (seq 0 n)) = true ->
  forall z, 0 <= z < Z.of_nat n -> P z = true.
Proof.
  intros H z Hz. rewrite forallb_forall in H. apply H.
  apply in_map_iff. exists (Z.to_nat z). split; [lia|].
  apply in_seq. lia.
Qed.

Lemma land_mask_bound x n : 0 <= n -> 0 <= Z.land x (Z.ones n) < 2 ^ n.
Proof.
  intros Hn. rewrite Z.land_ones by assumption.
  apply Z.mod_pos_bound. apply Z.pow_pos_nonneg; lia.
Qed.

(** Setting a bit above a number adds the bit's weight. *)
Lemma lor_high_bit l k : 0 <= k -> 0 <= l < 2 ^ k -> Z.lor l (2 ^ k) = l + 2 ^ k.
Proof.
  intros Hk Hl.
  assert (E : Z.land l (2 ^ k) = 0).
  { apply Z.bits_inj'. intros n Hn.
    rewrite Z.land_spec, Z.bits_0, Z.pow2_bits_eqb by lia.
    destruct (Z.eqb_spec k n) as [<-|]; [|apply andb_false_r].
    rewrite andb_true_r.
    destruct (Z.eq_dec l 0) as [->|]; [apply Z.bits_0|].
    apply Z.bits_above_log2; [lia|].
    apply Z.log2_lt_pow2; lia. }
  rewrite <- Z.lxor_lor by exact E.
  symmetry. apply Z.add_nocarry_lxor. exact E.
Qed.

(** ** Version and variant bits *)

Lemma version_of_stamp b v :
  0 <= v < 16 -> Z.shiftr (Z.lor (Z.land b 0x0f) (v * 16)) 4 = v.
Proof.
  intros Hv.
  pose proof (land_mask_bound b 4 ltac:(lia)) as Hb.
  change (Z.ones 4) with 0x0f in Hb. change (2 ^ 4) with 16 in Hb.
  generalize dependent (Z.land b 0x0f). intros l Hl.
  apply Z.eqb_eq.
  revert l Hl.
  apply (forall_below (fun l => Z.shiftr (Z.lor l (v * 16)) 4 =? v) 16).
  revert v Hv.
  apply (forall_below
           (fun v => forallb (fun l => Z.shiftr (Z.lor l (v * 16)) 4 =? v)
                             (map Z.of_nat (seq 0 16))) 16).
  vm_compute. reflexivity.
Qed.

Lemma variant_of_stamp b : Z.shiftr (Z.lor (Z.land b 0x3f) 0x80) 6 = 2.
Proof.
  pose proof (land_mask_bound b 6 ltac:(lia)) as Hb.
  change (Z.ones 6) with 0x3f in Hb. change (2 ^ 6) with 64 in Hb.
  generalize dependent (Z.land b 0x3f). intros l Hl.
  apply Z.eqb_eq. revert l Hl.
  apply (forall_below (fun l => Z.shiftr (Z.lor l 0x80) 6 =? 2) 64).
  vm_compute. reflexivity.
Qed.

Lemma version_of_time ts :
  Z.shiftr
    (toByte (Z.shiftr (uint16 (Z.lor (Z.land (Z.shiftr ts 48) 0x0FFF) 0x1000)) 8))
    4 = 1.
Proof.
  pose proof (land_mask_bound (Z.shiftr ts 48) 12 ltac:(lia)) as Hb.
  change (Z.ones 12) with 0x0FFF in Hb. change (2 ^ 12) with 4096 in Hb.
  generalize dependent (Z.land (Z.shiftr ts 48) 0x0FFF). intros l Hl.
  apply Z.eqb_eq. revert l Hl.
  apply (forall_below
           (fun l => Z.shiftr (toByte (Z.shiftr (uint16 (Z.lor l 0x1000)) 8)) 4
                     =? 1) 4096).
  vm_compute. reflexivity.
Qed.

Lemma variant_of_clock cs :
  Z.shiftr (toByte (Z.shiftr (Z.lor (Z.land cs 0x3fff) 0x8000) 8)) 6 = 2.
Proof.
  pose proof (land_mask_bound cs 14 ltac:(lia)) as Hb.
  change (Z.ones 14) with 0x3fff in Hb. change (2 ^ 14) with 16384 in Hb.
  generalize dependent (Z.land cs 0x3fff). intros l Hl.
  change 0x8000 with (2 ^ 15). rewrite lor_high_bit by lia.
  rewrite !Z.shiftr_div_pow2 by lia. unfold toByte.
  change (2 ^ 15) with 32768. change (2 ^ 8) with 256. change (2 ^ 6) with 64.
  Z.div_mod_to_equations. lia.
Qed.

Lemma nth6_stamp v a :
  length a = 16%nat ->
  nth 6 (stamp v a) 0 = Z.lor (Z.land (nth 6 a 0) 0x0f) v.
Proof.
  intros H. unfold stamp.
  repeat (rewrite nth_store_other by lia).
  rewrite nth_store_same by (rewrite ?length_store; lia).
  rewrite nth_store_same by lia. reflexivity.
Qed.

Lemma nth8_stamp v a :
  length a = 16%nat ->
  nth 8 (stamp v a) 0 = Z.lor (Z.land (nth 8 a 0) 0x3f) 0x80.
Proof.
  intros H. unfold stamp.
  rewrite nth_store_same by (rewrite ?length_store; lia).
  rewrite nth_store_same by (rewrite ?length_store; lia).
  repeat (rewrite nth_store_other by lia). reflexivity.
Qed.

Lemma length_stamp v a : length (stamp v a) = length a.
Proof. unfold stamp. rewrite !length_store. reflexivity. Qed.

Lemma version_variant_stamped v a :
  0 <= v < 16 -> length a = 16%nat ->
  Version (mkUUID (stamp (v * 16) a)) = v /\
  Variant (mkUUID (stamp (v * 16) a)) = 2.
Proof.
  intros Hv Ha. unfold Version, Variant, at_. cbn [u].
  rewrite nth6_stamp, nth8_stamp by assumption.
  split; [apply version_of_stamp; assumption | apply variant_of_stamp].
Qed.

Lemma nameBased_guard ns name :
  length (u ns) = 16%nat -> name <> EmptyString ->
  negb (Nat.eqb (length (u ns)) 16) || Nat.eqb (String.length name) 0 = false.
Proof.
  intros Hns Hname. rewrite Hns. simpl.
  destruct name; [congruence | reflexivity].
Qed.

Lemma version_variant_V1 x unixNano st :
  length (u x) = 16%nat ->
  Version (fst (UUID_GenerateV1 x unixNano st)) = 1 /\
  Variant (fst (UUID_GenerateV1 x unixNano st)) = 2.
Proof.
  intros Hx. unfold UUID_GenerateV1, Version, Variant, at_.
  destruct (getTimestampV1 unixNano st) as [ts st']. cbn [fst u].
  rewrite !nth_copyAt_before by (rewrite ?length_store; lia).
  split.
  - repeat (rewrite nth_store_other by lia).
    rewrite nth_store_same by (rewrite ?length_store; lia).
    apply version_of_time.
  - repeat (rewrite nth_store_other by lia).
    rewrite nth_store_same by (rewrite ?length_store; lia).
    apply variant_of_clock.
Qed.

(** ** Name-based generators against the specification's description *)

Lemma store_store a k p q : store (store a k p) k q = store a k q.
Proof.
  revert k; induction a as [|h t IH]; intros [|k]; simpl; auto.
  f_equal. apply IH.
Qed.

Lemma stamp_stores v a :
  length a = 16%nat ->
  stamp v a =
  store (store a 6 (Z.lor (Z.land (nth 6 a 0) 0x0f) v))
        8 (Z.lor (Z.land (nth 8 a 0) 0x3f) 0x80).
Proof.
  intros H. unfold stamp.
  rewrite !store_store.
  rewrite (nth_store_same a 6) by lia.
  rewrite (nth_store_same (store a 6 _) 8) by (rewrite length_store; lia).
  rewrite (nth_store_other a 6 _ 0 8) by lia.
  reflexivity.
Qed.

Lemma stamp_version_bits b v :
  0 <= v < 16 -> Z.lor (Z.land b 0x0f) (v * 16) = overwriteTop 4 v b.
Proof.
  intros Hv. unfold overwriteTop. change (2 ^ (8 - 4)) with (2 ^ 4).
  rewrite <- (Z.land_ones b 4) by lia. change (Z.ones 4) with 0x0f.
  pose proof (land_mask_bound b 4 ltac:(lia)) as Hb.
  change (Z.ones 4) with 0x0f in Hb. change (2 ^ 4) with 16 in *.
  generalize dependent (Z.land b 0x0f). intros l Hl.
  apply Z.eqb_eq. revert l Hl.
  apply (forall_below (fun l => Z.lor l (v * 16) =? v * 16 + l) 16).
  revert v Hv.
  apply (forall_below
           (fun v => forallb (fun l => Z.lor l (v * 16) =? v * 16 + l)
                             (map Z.of_nat (seq 0 16))) 16).
  vm_compute. reflexivity.
Qed.

Lemma stamp_variant_bits b :
  Z.lor (Z.land b 0x3f) 0x80 = overwriteTop 2 2 b.
Proof.
  unfold overwriteTop. change (2 ^ (8 - 2)) with (2 ^ 6).
  rewrite <- (Z.land_ones b 6) by lia. change (Z.ones 6) with 0x3f.
  pose proof (land_mask_bound b 6 ltac:(lia)) as Hb.
  change (Z.ones 6) with 0x3f in Hb. change (2 ^ 6) with 64 in *.
  generalize dependent (Z.land b 0x3f). intros l Hl.
  apply Z.eqb_eq. revert l Hl.
  apply (forall_below (fun l => Z.lor l 0x80 =? 2 * 64 + l) 64).
  vm_compute. reflexivity.
Qed.

Lemma stamped_digest_is_spec v a digest :
  0 <= v < 16 -> length a = 16%nat -> (16 <= length digest)%nat ->
  stamp (v * 16) (copy a digest) = specNameBased v digest.
Proof.
  intros Hv Ha Hd.
  rewrite copy_covers by lia. rewrite Ha.
  rewrite stamp_stores by (rewrite length_firstn; lia).
  unfold specNameBased.
  rewrite !nth_firstn. cbn [Nat.ltb Nat.leb].
  rewrite stamp_version_bits by assumption.
  rewrite stamp_variant_bits. reflexivity.
Qed.

(** ** The node field *)

Lemma skipn_copyAt a k src :
  (k <= length a)%nat -> length src = (length a - k)%nat ->
  skipn k (copyAt a k src) = src.
Proof.
  intros Hk Hs. unfold copyAt.
  rewrite skipn_app, length_firstn.
  replace (Nat.min k (length a)) with k by lia.
  rewrite skipn_all2 by (rewrite length_firstn; lia).
  rewrite Nat.sub_diag. cbn [skipn app].
  rewrite copy_covers by (rewrite length_skipn; lia).
  rewrite length_skipn, <- Hs. apply firstn_all.
Qed.

Lemma getTimestampV1_nodeId unixNano st :
  nodeId (snd (getTimestampV1 unixNano st)) = nodeId st.
Proof. reflexivity. Qed.

Lemma GenerateV1_state x unixNano st :
  snd (UUID_GenerateV1 x unixNano st) = snd (getTimestampV1 unixNano st).
Proof.
  unfold UUID_GenerateV1.
  destruct (getTimestampV1 unixNano st) as [ts st']. reflexivity.
Qed.

Lemma GenerateV1_node x unixNano st :
  length (u x) = 16%nat -> length (nodeId st) = 6%nat ->
  skipn 10 (u (fst (UUID_GenerateV1 x unixNano st))) = nodeId st.
Proof.
  intros Hx Hn. unfold UUID_GenerateV1.
  pose proof (getTimestampV1_nodeId unixNano st) as Hs.
  destruct (getTimestampV1 unixNano st) as [ts st']. cbn [fst snd u] in *.
  rewrite <- Hs.
  apply skipn_copyAt; rewrite !length_store; rewrite ?Hs; lia.
Qed.

Lemma length_nodeId_init randomNode randomClock :
  length (nodeId (init randomNode randomClock)) = 6%nat.
Proof.
  unfold init, initClockSeq, initNodeId, randRead. cbn [nodeId].
  rewrite length_store, length_copy. reflexivity.
Qed.

Section ProgramFacts.

Variable md5sum : list byte -> list byte.
Variable sha1sum : list byte -> list byte.

Lemma exec_nodeId c x st :
  nodeId (snd (exec md5sum sha1sum c x st)) = nodeId st.
Proof.
  destruct c; cbn [exec snd]; try reflexivity.
  all: rewrite GenerateV1_state; apply getTimestampV1_nodeId.
Qed.

(** Only [GenerateV1] touches the generation state at all. *)
Lemma exec_state_other c x st :
  isV1 c = false -> snd (exec md5sum sha1sum c x st) = st.
Proof. destruct c; cbn; intros H; congruence || reflexivity. Qed.

Lemma run_frame prog : forall st,
  Forall (fun xc => length (u (fst xc)) = 16%nat) prog ->
  length (nodeId st) = 6%nat ->
  nodeId (snd (run md5sum sha1sum prog st)) = nodeId st /\
  Forall (fun cr => isV1 (fst cr) = true ->
                    skipn 10 (u (snd cr)) = nodeId st)
         (fst (run md5sum sha1sum prog st)).
Proof.
  induction prog as [|[x c] rest IH]; intros st Hp Hn; cbn [run].
  - split; [reflexivity | constructor].
  - inversion Hp as [|? ? Hx Hrest]; subst. cbn [fst] in Hx.
    pose proof (exec_nodeId c x st) as He.
    assert (Hv : isV1 c = true ->
                 skipn 10 (u (fst (exec md5sum sha1sum c x st))) = nodeId st).
    { destruct c; cbn [isV1]; try discriminate. intros _.
      cbn [exec]. apply GenerateV1_node; assumption. }
    destruct (exec md5sum sha1sum c x st) as [r st1]. cbn [fst snd] in *.
    specialize (IH st1 Hrest ltac:(congruence)).
    destruct (run md5sum sha1sum rest st1) as [out st2]. cbn [fst snd] in *.
    destruct IH as [IH1 IH2]. split; [congruence|].
    constructor; [exact Hv|].
    rewrite He in IH2. exact IH2.
Qed.

End ProgramFacts.

(** ** The scanner *)

Module ScanFacts.
Import Scan ScanSpec.

Ltac to_prop :=
  repeat rewrite ?orb_true_iff, ?andb_true_iff, ?orb_false_iff,
    ?andb_false_iff, ?Z.leb_le, ?Z.leb_gt, ?Z.eqb_eq, ?Z.eqb_neq,
    ?Z.ltb_lt, ?Z.ltb_ge in *.

Lemma hex_not_space r : isHexDigit r = true -> isSpace r = false.
Proof.
  unfold isHexDigit, isSpace. intros H.
  destruct (Z.leb_spec 0x10000 r); [reflexivity|].
  to_prop. lia.
Qed.

Lemma hexVal_range r : isHexDigit r = true -> 0 <= hexVal r < 16.
Proof.
  unfold isHexDigit, hexVal. intros H.
  destruct ((48 <=? r) && (r <=? 57)) eqn:E1;
    [|destruct ((97 <=? r) && (r <=? 102)) eqn:E2]; to_prop; lia.
Qed.

Lemma space_cases r :
  Lenient.blank r \/ r = 10 \/ isSpace r = false.
Proof.
  unfold Lenient.blank.
  destruct (isSpace r); [|auto].
  destruct (Z.eq_dec r 10); auto.
Qed.

Lemma isSpace_10 : isSpace 10 = true.
Proof. reflexivity. Qed.

Lemma SkipSpace_nil lim cnt : SkipSpace lim [] cnt = Ok (mkSS [] cnt).
Proof. cbn. destruct (lim <=? cnt); reflexivity. Qed.

Lemma SkipSpace_blank lim r t cnt :
  cnt < lim -> Lenient.blank r ->
  SkipSpace lim (r :: t) cnt = SkipSpace lim t (cnt + 1).
Proof.
  intros Hc [Hs Hn]. cbn [SkipSpace].
  destruct (Z.leb_spec lim cnt); [lia|].
  destruct ((r =? 13) && peekNewline lim t (cnt + 1)); [reflexivity|].
  destruct (Z.eqb_spec r 10); [contradiction|].
  rewrite Hs. reflexivity.
Qed.

Lemma SkipSpace_newline lim t cnt :
  cnt < lim -> SkipSpace lim (10 :: t) cnt = Err ErrNewline.
Proof.
  intros Hc. cbn [SkipSpace].
  destruct (Z.leb_spec lim cnt); [lia|]. reflexivity.
Qed.

Lemma SkipSpace_stop lim r t cnt :
  cnt < lim -> isSpace r = false ->
  SkipSpace lim (r :: t) cnt = Ok (mkSS (r :: t) cnt).
Proof.
  intros Hc Hs. cbn [SkipSpace].
  destruct (Z.leb_spec lim cnt); [lia|].
  destruct (Z.eqb_spec r 13) as [->|]; [discriminate Hs|]. cbn [andb].
  destruct (Z.eqb_spec r 10) as [->|]; [discriminate Hs|].
  rewrite Hs. reflexivity.
Qed.

Lemma SkipSpace_ok inp : forall cnt s1,
  fits inp cnt -> SkipSpace hugeWid inp cnt = Ok s1 ->
  exists ws, inp = ws ++ rs s1 /\ Forall Lenient.blank ws /\
             count s1 = cnt + Z.of_nat (length ws) /\
             startsNonSpace (rs s1).
Proof.
  unfold fits.
  induction inp as [|r t IH]; intros cnt s1 Hf H.
  - rewrite SkipSpace_nil in H. injection H as <-.
    exists []. cbn. repeat split; [constructor | lia].
  - cbn [length] in Hf.
    destruct (space_cases r) as [Hb | [-> | Hs]].
    + rewrite SkipSpace_blank in H by (assumption || lia).
      apply IH in H; [|lia].
      destruct H as (ws & E & Hws & Hc & Hstart).
      exists (r :: ws). cbn [app length]. rewrite <- E.
      repeat split; [constructor; assumption | lia | assumption].
    + rewrite SkipSpace_newline in H by lia. discriminate.
    + rewrite SkipSpace_stop in H by (assumption || lia).
      injection H as <-. exists []. cbn.
      repeat split; [constructor | lia | assumption].
Qed.

Lemma SkipSpace_skips ws : forall rest cnt,
  Forall Lenient.blank ws -> startsNonSpace rest ->
  fits (ws ++ rest) cnt ->
  SkipSpace hugeWid (ws ++ rest) cnt
  = Ok (mkSS rest (cnt + Z.of_nat (length ws))).
Proof.
  unfold fits.
  induction ws as [|w ws IH]; intros rest cnt Hws Hstart Hf.
  - cbn [app length]. replace (cnt + Z.of_nat 0) with cnt by lia.
    destruct rest as [|r t]; [apply SkipSpace_nil|].
    cbn [app length] in Hf. apply SkipSpace_stop; [lia | exact Hstart].
  - inversion Hws; subst. cbn [app length] in *.
    rewrite SkipSpace_blank by (assumption || lia).
    rewrite IH by (assumption || lia). do 2 f_equal. lia.
Qed.

Lemma hugeWid_val : hugeWid = 1073741824.
Proof. reflexivity. Qed.

Lemma ParseUint_one d :
  isHexDigit d = true -> ParseUint [d] = Ok (hexVal d).
Proof.
  intros H. pose proof (hexVal_range d H). unfold ParseUint. cbn [fold_left].
  destruct (Z.leb_spec (2 ^ 64) (0 * 16 + hexVal d)); [lia|].
  f_equal.
Qed.

Lemma ParseUint_two d1 d2 :
  isHexDigit d1 = true -> isHexDigit d2 = true ->
  ParseUint [d1; d2] = Ok (hexVal d1 * 16 + hexVal d2).
Proof.
  intros H1 H2. pose proof (hexVal_range d1 H1). pose proof (hexVal_range d2 H2).
  unfold ParseUint. cbn [fold_left].
  destruct (Z.leb_spec (2 ^ 64) ((0 * 16 + hexVal d1) * 16 + hexVal d2));
    [lia|].
  f_equal.
Qed.

Lemma fits_byte i : 0 <= i < 256 -> (i mod 2 ^ 8 =? i) = true.
Proof.
  intros H. change (2 ^ 8) with 256. rewrite Z.mod_small by lia.
  apply Z.eqb_refl.
Qed.

Lemma scanUint8_start inp cnt :
  startsNonSpace inp -> fits inp cnt ->
  scanUint8 (Z.min hugeWid (cnt + 2)) (mkSS inp cnt) = fieldAt inp cnt.
Proof.
  unfold fits. intros Hstart Hf. unfold scanUint8. cbn [rs count].
  destruct inp as [|d1 t].
  - rewrite SkipSpace_nil. unfold notEOF. cbn [bind fieldAt rs count].
    destruct (Z.min hugeWid (cnt + 2) <=? cnt); reflexivity.
  - cbn [length] in Hf. cbn [startsNonSpace] in Hstart.
    rewrite SkipSpace_stop by (assumption || lia).
    cbn [bind]. unfold scanNumber, notEOF. cbn [rs count bind fieldAt].
    destruct (Z.leb_spec (Z.min hugeWid (cnt + 2)) cnt); [lia|].
    cbn [bind].
    destruct (isHexDigit d1) eqn:H1; [|reflexivity].
    pose proof (hexVal_range d1 H1).
    destruct t as [|d2 t'].
    + assert (E : acceptDigits (Z.min hugeWid (cnt + 2)) [] (cnt + 1) [d1]
                  = ([d1], mkSS [] (cnt + 1))).
      { cbn [acceptDigits].
        destruct (Z.min hugeWid (cnt + 2) <=? cnt + 1); reflexivity. }
      rewrite E. cbn [bind fst snd].
      rewrite ParseUint_one by assumption. cbn [bind].
      rewrite fits_byte by lia. reflexivity.
    + cbn [length] in Hf. cbn [acceptDigits].
      destruct (Z.leb_spec (Z.min hugeWid (cnt + 2)) (cnt + 1)); [lia|].
      destruct (isHexDigit d2) eqn:Hd2.
      * pose proof (hexVal_range d2 Hd2).
        assert (E : acceptDigits (Z.min hugeWid (cnt + 2)) t' (cnt + 1 + 1)
                                 ([d1] ++ [d2])
                    = ([d1; d2], mkSS t' (cnt + 1 + 1))).
        { destruct t'; cbn [acceptDigits];
            destruct (Z.leb_spec (Z.min hugeWid (cnt + 2)) (cnt + 1 + 1));
            reflexivity || lia. }
        rewrite E. cbn [bind fst snd].
        rewrite ParseUint_two by assumption. cbn [bind].
        rewrite fits_byte by lia.
        replace (cnt + 1 + 1) with (cnt + 2) by lia. reflexivity.
      * cbn [bind fst snd].
        rewrite ParseUint_one by assumption. cbn [bind].
        rewrite fits_byte by lia. reflexivity.
Qed.

Lemma fieldAt_byte inp cnt v s' :
  fieldAt inp cnt = Ok (v, s') -> isByte v = true.
Proof.
  unfold fieldAt, isByte. intros H.
  destruct inp as [|d1 t]; [discriminate|].
  destruct (isHexDigit d1) eqn:H1; [|discriminate].
  pose proof (hexVal_range d1 H1).
  destruct t as [|d2 t']; [|destruct (isHexDigit d2) eqn:H2];
    try pose proof (hexVal_range d2 H2);
    injection H as <- _; to_prop; lia.
Qed.

(** Any value [scanUint8] returns is a byte, whatever the limit. *)
Lemma scanUint8_byte lim s v s' :
  scanUint8 lim s = Ok (v, s') -> isByte v = true.
Proof.
  unfold scanUint8. intros H.
  destruct (SkipSpace lim (rs s) (count s)) as [s1|]; [|discriminate].
  cbn [bind] in H.
  destruct (notEOF lim s1); [|discriminate]. cbn [bind] in H.
  destruct (scanNumber lim s1) as [ts|]; [|discriminate]. cbn [bind] in H.
  destruct (ParseUint (fst ts)) as [i|]; [|discriminate]. cbn [bind] in H.
  destruct (Z.eqb_spec (i mod 2 ^ 8) i) as [E|]; [|discriminate].
  injection H as <- _. unfold isByte.
  pose proof (Z.mod_pos_bound i (2 ^ 8) ltac:(lia)).
  change (2 ^ 8) with 256 in *. to_prop. lia.
Qed.

Lemma field_sound inp cnt s1 v s' :
  fits inp cnt ->
  SkipSpace hugeWid inp cnt = Ok s1 ->
  scanUint8 (Z.min hugeWid (count s1 + 2)) s1 = Ok (v, s') ->
  Lenient.field inp (rs s') /\ fits (rs s') (count s').
Proof.
  intros Hf Hskip Hscan.
  destruct (SkipSpace_ok inp cnt s1 Hf Hskip) as (ws & E & Hws & Hc & Hstart).
  destruct s1 as [inp1 c1]. cbn [rs count] in *.
  assert (Hf1 : fits inp1 c1).
  { unfold fits in *. subst inp. rewrite length_app in Hf. lia. }
  rewrite scanUint8_start in Hscan by assumption.
  unfold fieldAt in Hscan. subst inp. unfold fits in *.
  destruct inp1 as [|d1 t]; [discriminate|].
  destruct (isHexDigit d1) eqn:H1; [|discriminate].
  destruct t as [|d2 t']; [|destruct (isHexDigit d2) eqn:H2];
    injection Hscan as <- <-; cbn [rs count length] in *.
  - split; [|lia]. apply Lenient.field_one; cbn; auto.
  - split; [|lia]. apply Lenient.field_two; auto.
  - split; [|lia]. apply Lenient.field_one; cbn; auto.
Qed.

Lemma field_complete inp rest cnt :
  Lenient.field inp rest -> fits inp cnt ->
  exists s1 v cnt',
    SkipSpace hugeWid inp cnt = Ok s1 /\
    scanUint8 (Z.min hugeWid (count s1 + 2)) s1 = Ok (v, mkSS rest cnt') /\
    fits rest cnt'.
Proof.
  intros Hfield Hf.
  destruct Hfield as [ws d rest Hws Hd Hstop | ws d1 d2 rest Hws H1 H2].
  - exists (mkSS (d :: rest) (cnt + Z.of_nat (length ws))).
    exists (hexVal d), (cnt + Z.of_nat (length ws) + 1).
    assert (Hf1 : fits (d :: rest) (cnt + Z.of_nat (length ws))).
    { unfold fits in *. rewrite length_app in Hf. lia. }
    split; [|split].
    + apply SkipSpace_skips; auto. cbn. apply hex_not_space; assumption.
    + cbn [rs count]. rewrite scanUint8_start; auto.
      * unfold fieldAt. rewrite Hd.
        destruct rest as [|r t]; [reflexivity|].
        cbn in Hstop. rewrite Hstop. reflexivity.
      * cbn. apply hex_not_space; assumption.
    + unfold fits in *. cbn [length] in Hf1. lia.
  - exists (mkSS (d1 :: d2 :: rest) (cnt + Z.of_nat (length ws))).
    exists (hexVal d1 * 16 + hexVal d2), (cnt + Z.of_nat (length ws) + 2).
    assert (Hf1 : fits (d1 :: d2 :: rest) (cnt + Z.of_nat (length ws))).
    { unfold fits in *. rewrite length_app in Hf. lia. }
    split; [|split].
    + apply SkipSpace_skips; auto. cbn. apply hex_not_space; assumption.
    + cbn [rs count]. rewrite scanUint8_start; auto.
      * unfold fieldAt. rewrite H1, H2. reflexivity.
      * cbn. apply hex_not_space; assumption.
    + unfold fits in *. cbn [length] in Hf1. lia.
Qed.

(** *** [doScanf]: what is stored, and where *)

Lemma skipn_store a : forall k n v,
  (k < n)%nat -> skipn n (store a k v) = skipn n a.
Proof.
  induction a as [|h t IH]; intros [|k] [|n] v H; cbn; try lia; auto.
  apply IH. lia.
Qed.

Lemma forallb_store a : forall k v,
  forallb isByte a = true -> isByte v = true ->
  forallb isByte (store a k v) = true.
Proof.
  induction a as [|h t IH]; intros [|k] v Ha Hv; cbn in *; auto;
    apply andb_true_iff in Ha; destruct Ha as [Hh Ht];
    apply andb_true_iff; split; auto.
Qed.

Lemma doScanf_frame format : forall a k s a' n err,
  doScanf format a k s = (a', n, err) ->
  (k <= n)%nat /\ length a' = length a /\ skipn n a' = skipn n a /\
  (forallb isByte a = true -> forallb isByte a' = true).
Proof.
  induction format as [|d f IH]; intros a k s a' n err H; cbn [doScanf] in H.
  - destruct (Nat.ltb k (length a)); injection H as <- <- _; auto.
  - destruct d as [c|w].
    + destruct (advanceLit c s) as [s1|e].
      * apply IH in H. exact H.
      * injection H as <- <- _; auto.
    + destruct (SkipSpace hugeWid (rs s) (count s)) as [s1|e];
        [|injection H as <- <- _; auto].
      destruct (Nat.leb (length a) k); [injection H as <- <- _; auto|].
      destruct (scanUint8 (Z.min hugeWid (count s1 + w)) s1) as [[v s2]|e] eqn:E;
        [|injection H as <- <- _; auto].
      apply IH in H. destruct H as (Hk & Hl & Hs & Hb).
      rewrite length_store in Hl. rewrite skipn_store in Hs by lia.
      repeat split; auto; try lia.
      intros Ha. apply Hb. apply forallb_store; [assumption|].
      eapply scanUint8_byte; eassumption.
Qed.




(** *** [doScanf] against the language of the format *)

Lemma doScanf_matches format : forall a k inp cnt a' n,
  Forall width2 format -> fits inp cnt ->
  doScanf format a k (mkSS inp cnt) = (a', n, None) ->
  exists rest, Lenient.matches format inp rest.
Proof.
  induction format as [|d f IH]; intros a k inp cnt a' n Hw Hf H;
    cbn [doScanf] in H.
  - exists inp. constructor.
  - inversion Hw as [|? ? Hd Hw']; subst. destruct d as [c|w].
    + unfold advanceLit in H. cbn [rs count] in H.
      destruct (hugeWid <=? cnt); [discriminate|].
      destruct inp as [|r t]; [discriminate|].
      destruct (Z.eqb_spec r c) as [->|]; [|discriminate].
      apply IH in H; auto.
      * destruct H as [rest H]. exists rest. constructor. exact H.
      * unfold fits in *. cbn [length] in Hf. lia.
    + cbn in Hd. subst w. cbn [rs count] in H.
      destruct (SkipSpace hugeWid inp cnt) as [s1|e] eqn:Hskip;
        [|discriminate].
      destruct (Nat.leb (length a) k); [discriminate|].
      destruct (scanUint8 (Z.min hugeWid (count s1 + 2)) s1)
        as [[v [inp2 cnt2]]|e] eqn:Hscan; [|discriminate].
      destruct (field_sound _ _ _ _ _ Hf Hskip Hscan) as [Hfield Hf2].
      cbn [rs count] in *.
      apply IH in H; auto.
      destruct H as [rest H]. exists rest.
      econstructor; eassumption.
Qed.

Lemma matches_doScanf format : forall a k inp cnt rest,
  (k + countVerbs format = length a)%nat -> fits inp cnt ->
  Lenient.matches format inp rest ->
  exists a' n, doScanf format a k (mkSS inp cnt) = (a', n, None).
Proof.
  induction format as [|d f IH]; intros a k inp cnt rest Hcnt Hf Hm;
    cbn [doScanf].
  - cbn in Hcnt. destruct (Nat.ltb_spec k (length a)); [lia|]. eauto.
  - inversion Hm as [| c f' s0 rest' Hm' | f' s0 s1 rest' Hfield Hm'];
      subst; cbn [countVerbs] in Hcnt.
    + unfold advanceLit. cbn [rs count].
      unfold fits in Hf. cbn [length] in Hf.
      destruct (Z.leb_spec hugeWid cnt); [lia|].
      rewrite Z.eqb_refl.
      apply (IH a k s0 (cnt + 1) rest); auto. unfold fits. lia.
    + cbn [rs count].
      destruct (field_complete _ _ _ Hfield Hf)
        as (s2 & v & cnt' & Hskip & Hscan & Hf').
      rewrite Hskip.
      destruct (Nat.leb_spec (length a) k); [lia|].
      rewrite Hscan.
      apply (IH (store a k v) (S k) s1 cnt' rest); auto.
      rewrite length_store. lia.
Qed.

(** *** Stepping [doScanf] over well-formed text *)

Lemma doScanf_hex2 f a k c1 c2 rest cnt :
  isHexDigit c1 = true -> isHexDigit c2 = true ->
  fits (c1 :: c2 :: rest) cnt -> (k < length a)%nat ->
  doScanf (HexVerb 2 :: f) a k (mkSS (c1 :: c2 :: rest) cnt)
  = doScanf f (store a k (hexVal c1 * 16 + hexVal c2)) (S k)
            (mkSS rest (cnt + 2)).
Proof.
  intros H1 H2 Hf Hk. cbn [doScanf rs count].
  assert (Hs : isSpace c1 = false) by (apply hex_not_space; assumption).
  assert (Hc : cnt < hugeWid) by (unfold fits in Hf; cbn [length] in Hf; lia).
  rewrite SkipSpace_stop by assumption.
  destruct (Nat.leb_spec (length a) k); [lia|].
  cbn [count]. rewrite scanUint8_start by assumption.
  unfold fieldAt. rewrite H1, H2. reflexivity.
Qed.

Lemma doScanf_lit f a k c rest cnt :
  fits (c :: rest) cnt ->
  doScanf (Lit c :: f) a k (mkSS (c :: rest) cnt)
  = doScanf f a k (mkSS rest (cnt + 1)).
Proof.
  intros Hf. cbn [doScanf]. unfold advanceLit. cbn [rs count].
  unfold fits in Hf. cbn [length] in Hf.
  destruct (Z.leb_spec hugeWid cnt); [lia|].
  rewrite Z.eqb_refl. reflexivity.
Qed.

End ScanFacts.

(** ** Strings and their runes *)

Module StringFacts.
Import Scan ScanSpec ScanFacts.

Lemma byteOfAscii_asciiOfByte z :
  0 <= z < 256 -> byteOfAscii (asciiOfByte z) = z.
Proof.
  intros H. unfold byteOfAscii, asciiOfByte.
  rewrite N_ascii_embedding by lia. lia.
Qed.

Lemma byteOfAscii_range c : 0 <= byteOfAscii c < 256.
Proof.
  unfold byteOfAscii. pose proof (N_ascii_bounded c). lia.
Qed.

Lemma runes_cons c t :
  byteOfAscii c < 128 -> runes (String c t) = byteOfAscii c :: runes t.
Proof.
  intros H. unfold runes, bytesOf. cbn [list_ascii_of_string map decodeRunes].
  destruct (Z.ltb_spec (byteOfAscii c) 128); [reflexivity | lia].
Qed.

Lemma runes_empty : runes EmptyString = [].
Proof. reflexivity. Qed.

Lemma nibbles b :
  isByte b = true ->
  0 <= Z.shiftr b 4 < 16 /\ 0 <= Z.land b 15 < 16 /\
  Z.shiftr b 4 * 16 + Z.land b 15 = b.
Proof.
  unfold isByte. intros H. to_prop.
  rewrite Z.shiftr_div_pow2 by lia.
  change 15 with (Z.ones 4). rewrite Z.land_ones by lia.
  change (2 ^ 4) with 16.
  pose proof (Z.div_mod b 16 ltac:(lia)).
  pose proof (Z.mod_pos_bound b 16 ltac:(lia)).
  assert (0 <= b / 16 < 16)
    by (split; [apply Z.div_pos; lia | apply Z.div_lt_upper_bound; lia]).
  lia.
Qed.

Lemma hexDigitCode_facts n :
  0 <= n < 16 ->
  isHexDigit (hexDigitCode n) = true /\ hexVal (hexDigitCode n) = n /\
  0 <= hexDigitCode n < 128.
Proof.
  intros H. unfold isHexDigit, hexVal, hexDigitCode.
  destruct (Z.ltb_spec n 10).
  - replace ((48 <=? 48 + n) && (48 + n <=? 57)) with true
      by (symmetry; to_prop; lia).
    cbn [orb]. repeat split; lia.
  - replace ((48 <=? 87 + n) && (87 + n <=? 57)) with false
      by (symmetry; to_prop; lia).
    replace ((97 <=? 87 + n) && (87 + n <=? 102)) with true
      by (symmetry; to_prop; lia).
    cbn [orb]. repeat split; lia.
Qed.

Lemma runes_fmt02x b t :
  isByte b = true ->
  runes (fmt02x b ++ t)
  = hexDigitCode (Z.shiftr b 4) :: hexDigitCode (Z.land b 15) :: runes t.
Proof.
  intros Hb. destruct (nibbles b Hb) as (Hhi & Hlo & _).
  destruct (hexDigitCode_facts _ Hhi) as (_ & _ & Rhi).
  destruct (hexDigitCode_facts _ Hlo) as (_ & _ & Rlo).
  unfold fmt02x, hexDigit. cbn [append].
  rewrite !runes_cons; rewrite ?byteOfAscii_asciiOfByte; try lia.
  reflexivity.
Qed.

Lemma runes_dash t : runes ("-" ++ t) = 45 :: runes t.
Proof. cbn [append]. rewrite runes_cons; reflexivity. Qed.

(** One [%02x] of the format read back from what [%02x] printed. *)
Lemma doScanf_fmt02x f a k b rest cnt :
  isByte b = true ->
  fits (hexDigitCode (Z.shiftr b 4) :: hexDigitCode (Z.land b 15) :: rest) cnt ->
  (k < length a)%nat ->
  doScanf (HexVerb 2 :: f) a k
          (mkSS (hexDigitCode (Z.shiftr b 4) :: hexDigitCode (Z.land b 15)
                              :: rest) cnt)
  = doScanf f (store a k b) (S k) (mkSS rest (cnt + 2)).
Proof.
  intros Hb Hf Hk. destruct (nibbles b Hb) as (Hhi & Hlo & E).
  destruct (hexDigitCode_facts _ Hhi) as (Xhi & Vhi & _).
  destruct (hexDigitCode_facts _ Hlo) as (Xlo & Vlo & _).
  rewrite doScanf_hex2 by assumption.
  rewrite Vhi, Vlo, E. reflexivity.
Qed.

End StringFacts.

(** ** [Parse] after [String] *)

Module RoundTrip.
Import Scan ScanSpec ScanFacts StringFacts.

Ltac explode a H :=
repeat (destruct a as [|? a]; [discriminate H|]);
destruct a; [|discriminate H].

Ltac scan_side :=
first [ assumption
      | unfold fits; cbn [length]; rewrite hugeWid_val; lia
      | cbn [store length]; lia ].

Lemma runes_fmt02x_last b :
isByte b = true ->
runes (fmt02x b) = [hexDigitCode (Z.shiftr b 4); hexDigitCode (Z.land b 15)].
Proof.
intros Hb. pose proof (runes_fmt02x b EmptyString Hb) as H.
unfold fmt02x in *. cbn [append] in H. exact H.
Qed.

Lemma Parse_String y x :
length (u y) = 16%nat -> wfUUID x = true ->
UUID_Parse y (UUID_String x) = (x, false).
Proof.
intros Hy Hx. unfold wfUUID in Hx.
apply andb_prop in Hx. destruct Hx as [Hl Hb]. apply Nat.eqb_eq in Hl.
destruct x as [a]; destruct y as [c]; cbn [u] in *.
explode a Hl. explode c Hy.
cbn [forallb] in Hb.
repeat (apply andb_prop in Hb; destruct Hb as [? Hb]).
unfold UUID_Parse, Sscanf, UUID_String. cbn [at_ nth u].
repeat first [ rewrite runes_fmt02x by assumption | rewrite runes_dash ].
rewrite runes_fmt02x_last by assumption.
cbv [uuidFormat newScanState].
repeat first [ rewrite doScanf_fmt02x by scan_side
             | rewrite doScanf_lit by scan_side ].
reflexivity.
Qed.

End RoundTrip.

(** ** Canonical text *)

Module CanonicalFacts.
Import Scan ScanSpec ScanFacts StringFacts.

Lemma canonicalFrom_beyond s : forall i,
(36 < i)%nat -> canonicalFrom i s = false.
Proof.
induction s as [|c t IH]; intros i Hi; cbn [canonicalFrom].
- apply Nat.eqb_neq. lia.
- rewrite IH by lia. apply andb_false_r.
Qed.

Lemma canonicalFrom_end s : canonicalFrom 36 s = true -> s = EmptyString.
Proof.
destruct s as [|c t]; [reflexivity|]. cbn [canonicalFrom].
rewrite canonicalFrom_beyond by lia. rewrite andb_false_r. discriminate.
Qed.

Lemma lowerHex_rune c :
isLowerHex c = true ->
isHexDigit (byteOfAscii c) = true /\ byteOfAscii c < 128.
Proof.
unfold isLowerHex, isHexDigit. cbv zeta. intros H. split.
- rewrite orb_true_iff in H. destruct H as [H|H]; rewrite H;
    [reflexivity | rewrite orb_true_r; reflexivity].
- to_prop. lia.
Qed.

Ltac peel s H :=
destruct s as [|? s]; [discriminate H|];
cbn [canonicalFrom isHyphenPos Nat.eqb orb] in H;
apply andb_prop in H;
let Hc := fresh "Hc" in destruct H as [Hc H];
first [ apply Z.eqb_eq in Hc | apply lowerHex_rune in Hc; destruct Hc ].

Lemma canonical_matches s :
canonical s = true ->
Lenient.matches uuidFormat (runes s) [] /\ length (runes s) = 36%nat.
Proof.
unfold canonical. intros H.
do 36 (peel s H).
apply canonicalFrom_end in H. subst s.
repeat (rewrite runes_cons by lia). rewrite runes_empty.
split; [|reflexivity].
cbv [uuidFormat].
repeat match goal with
       | E : byteOfAscii _ = 45 |- _ => rewrite E; clear E
       end.
repeat first
       [ apply Lenient.matches_nil
       | apply Lenient.matches_lit
       | eapply Lenient.matches_hex;
         [ apply (Lenient.field_two []); [constructor | assumption..] | ] ].
Qed.

End CanonicalFacts.

(** * The claims *)

Module Claims.
Import Scan ScanSpec ScanFacts StringFacts.

Lemma wfUUID_length x : wfUUID x = true -> length (u x) = 16%nat.
Proof.
unfold wfUUID. intros H. apply andb_prop in H. destruct H as [H _].
apply Nat.eqb_eq. exact H.
Qed.

Lemma wfUUID_bytes x : wfUUID x = true -> forallb isByte (u x) = true.
Proof.
unfold wfUUID. intros H. apply andb_prop in H. apply H.
Qed.

Lemma uuidFormat_width2 : Forall width2 uuidFormat.
Proof. cbv [uuidFormat]. repeat constructor. Qed.

Lemma land_succ_mask cs : Z.land (uint16 (cs + 1)) 0x3FFF = (cs + 1) mod 2 ^ 14.
Proof.
change 0x3FFF with (Z.ones 14). rewrite Z.land_ones by lia.
unfold uint16. apply Z.mod_mod_divide.
exists 4. reflexivity.
Qed.

(** C1. Round trip: for every identifier [x], parsing the string [String]
  gives for it reports no error and leaves exactly the bytes of [x] in the
  receiver, whatever the receiver [y] held; the package-level [Parse]
  returns [x] and no error. *)
Theorem parse_string_roundtrip (x y : UUID) :
wfUUID x = true -> wfUUID y = true ->
Parse (UUID_String x) = (x, false) /\
UUID_Parse y (UUID_String x) = (x, false).
Proof.
intros Hx Hy. split.
- apply RoundTrip.Parse_String; [reflexivity | assumption].
- apply RoundTrip.Parse_String; [apply wfUUID_length | ]; assumption.
Qed.

Lemma parse_string_roundtrip_witness :
wfUUID Namespace_DNS = true /\ wfUUID NilUUID = true /\
(Parse (UUID_String Namespace_DNS) = (Namespace_DNS, false) /\
 UUID_Parse NilUUID (UUID_String Namespace_DNS) = (Namespace_DNS, false)).
Proof.
split; [reflexivity|]. split; [reflexivity|].
apply (parse_string_roundtrip Namespace_DNS NilUUID); reflexivity.
Defined.

(** C9. Nil identity: [String] of the Nil identifier is
  ["00000000-0000-0000-0000-000000000000"] and its [Version] is 0. *)
Theorem nil_identity :
UUID_String NilUUID = "00000000-0000-0000-0000-000000000000"%string /\
Version NilUUID = 0.
Proof. split; reflexivity. Qed.

(** C7. With the empty name, [GenerateV3] and [GenerateV5] return at the
  guard: the receiver is left exactly as it was, for every namespace and
  every digest function, and the package-level functions return the zero
  identifier.  Being functions of their arguments, the same call has the
  same effect every time. *)
Theorem empty_name_is_noop
      (md5sum sha1sum : list byte -> list byte) (x : UUID) (ns : Namespace) :
UUID_GenerateV3 md5sum x ns EmptyString = x /\
UUID_GenerateV5 sha1sum x ns EmptyString = x /\
GenerateV3 md5sum ns EmptyString = NilUUID /\
GenerateV5 sha1sum ns EmptyString = NilUUID.
Proof.
unfold GenerateV3, GenerateV5, UUID_GenerateV3, UUID_GenerateV5.
cbn [String.length Nat.eqb]. rewrite orb_true_r. auto.
Qed.

(** C6. In the v1 generator the clock sequence is incremented modulo 2^14
  exactly when the fresh timestamp is not greater than [lastTime], and
  [lastTime] becomes the fresh timestamp in every case. *)
Theorem clock_sequence_bump (x : UUID) (unixNano : Z) (st : genState) :
let ts := fst (getTimestampV1 unixNano st) in
let st' := snd (UUID_GenerateV1 x unixNano st) in
lastTime st' = ts /\
clockSeq st' = (if ts <=? lastTime st
                then (clockSeq st + 1) mod 2 ^ 14
                else clockSeq st).
Proof.
cbv zeta. rewrite GenerateV1_state. unfold getTimestampV1.
cbn [fst snd lastTime clockSeq]. split; [reflexivity|].
destruct (_ <=? lastTime st); [apply land_succ_mask | reflexivity].
Qed.

(** The first revisions differ at equal timestamps: no increment there. *)
Remark draft_keeps_sequence_at_equal_time (st : genState) :
clockSeq (Draft.stampClock (lastTime st) st) = clockSeq st.
Proof.
unfold Draft.stampClock. cbn [clockSeq]. rewrite Z.ltb_irrefl. reflexivity.
Qed.

(** C2 (as the code has it). After [GenerateV1] and [GenerateV4], and after
  [GenerateV3] and [GenerateV5] called with a non-empty name, the
  identifier has variant bits [10] and the version nibble 1, 4, 3 and 5. *)
Theorem generated_version_variant
      (md5sum sha1sum : list byte -> list byte) (x : UUID) (ns : Namespace)
      (name : string) (unixNano : Z) (st : genState) (random : list byte) :
wfUUID x = true -> wfUUID ns = true -> name <> EmptyString ->
(Version (fst (UUID_GenerateV1 x unixNano st)) = 1 /\
 Variant (fst (UUID_GenerateV1 x unixNano st)) = 2) /\
(Version (UUID_GenerateV3 md5sum x ns name) = 3 /\
 Variant (UUID_GenerateV3 md5sum x ns name) = 2) /\
(Version (UUID_GenerateV4 x random) = 4 /\
 Variant (UUID_GenerateV4 x random) = 2) /\
(Version (UUID_GenerateV5 sha1sum x ns name) = 5 /\
 Variant (UUID_GenerateV5 sha1sum x ns name) = 2).
Proof.
intros Hx Hns Hname.
apply wfUUID_length in Hx. apply wfUUID_length in Hns.
split; [apply version_variant_V1; assumption|].
unfold UUID_GenerateV3, UUID_GenerateV4, UUID_GenerateV5, randRead.
rewrite nameBased_guard by assumption.
repeat split;
  first [ apply (version_variant_stamped 3)
        | apply (version_variant_stamped 4)
        | apply (version_variant_stamped 5) ];
  rewrite ?length_copy; lia || assumption.
Qed.

Lemma generated_version_variant_witness :
wfUUID NilUUID = true /\ wfUUID Namespace_DNS = true /\
"www.example.com"%string <> EmptyString /\
(Version (fst (UUID_GenerateV1 NilUUID Sample.now Sample.state)) = 1 /\
 Variant (fst (UUID_GenerateV1 NilUUID Sample.now Sample.state)) = 2) /\
(Version (UUID_GenerateV3 Sample.digest16 NilUUID Namespace_DNS
                          "www.example.com") = 3 /\
 Variant (UUID_GenerateV3 Sample.digest16 NilUUID Namespace_DNS
                          "www.example.com") = 2) /\
(Version (UUID_GenerateV4 NilUUID (repeat 255 16)) = 4 /\
 Variant (UUID_GenerateV4 NilUUID (repeat 255 16)) = 2) /\
(Version (UUID_GenerateV5 Sample.digest20 NilUUID Namespace_DNS
                          "www.example.com") = 5 /\
 Variant (UUID_GenerateV5 Sample.digest20 NilUUID Namespace_DNS
                          "www.example.com") = 2).
Proof.
split; [reflexivity|]. split; [reflexivity|]. split; [discriminate|].
apply (generated_version_variant
         Sample.digest16 Sample.digest20 NilUUID Namespace_DNS
         "www.example.com" Sample.now Sample.state (repeat 255 16));
  [reflexivity | reflexivity | discriminate].
Defined.

(** C2 fails as stated: called with the empty name, [GenerateV3] leaves the
  zero identifier it was given, whose version is 0 and whose variant bits
  are 00 (the digest function is never consulted). *)
Lemma empty_name_has_no_version :
Version (GenerateV3 Sample.digest16 Namespace_DNS EmptyString) <> 3 /\
Variant (GenerateV3 Sample.digest16 Namespace_DNS EmptyString) <> 2 /\
Version (GenerateV5 Sample.digest20 Namespace_DNS EmptyString) <> 5 /\
Variant (GenerateV5 Sample.digest20 Namespace_DNS EmptyString) <> 2.
Proof. repeat split; discriminate. Qed.

(** C5. For a 16-byte namespace and a non-empty name, [GenerateV3] leaves
  in the receiver the first 16 bytes of the MD5 digest of the namespace
  bytes followed by the name bytes, with the version nibble of byte 6
  overwritten by 0011 and the top two bits of byte 8 by 10; [GenerateV5]
  the leading 16 of the 20 bytes of the SHA-1 digest, with version nibble
  0101.  The right-hand sides mention neither the receiver nor any state:
  the result is a function of the namespace and the name alone. *)
Theorem name_based_is_stamped_digest
      (md5sum sha1sum : list byte -> list byte) (x : UUID) (ns : Namespace)
      (name : string) :
(forall m, length (md5sum m) = 16%nat) ->
(forall m, length (sha1sum m) = 20%nat) ->
wfUUID x = true -> wfUUID ns = true -> name <> EmptyString ->
u (UUID_GenerateV3 md5sum x ns name)
= specNameBased 3 (md5sum (u ns ++ bytesOf name)) /\
u (UUID_GenerateV5 sha1sum x ns name)
= specNameBased 5 (sha1sum (u ns ++ bytesOf name)).
Proof.
intros Hmd5 Hsha1 Hx Hns Hname.
apply wfUUID_length in Hx. apply wfUUID_length in Hns.
unfold UUID_GenerateV3, UUID_GenerateV5.
rewrite nameBased_guard by assumption. cbn [u].
split.
- apply (stamped_digest_is_spec 3); [lia | assumption | rewrite Hmd5; lia].
- apply (stamped_digest_is_spec 5); [lia | assumption | rewrite Hsha1; lia].
Qed.

Lemma digest16_length m : length (Sample.digest16 m) = 16%nat.
Proof.
unfold Sample.digest16.
rewrite length_firstn, length_app, repeat_length. lia.
Qed.

Lemma digest20_length m : length (Sample.digest20 m) = 20%nat.
Proof.
unfold Sample.digest20.
rewrite length_firstn, length_app, repeat_length. lia.
Qed.

Lemma name_based_is_stamped_digest_witness :
(forall m, length (Sample.digest16 m) = 16%nat) /\
(forall m, length (Sample.digest20 m) = 20%nat) /\
wfUUID NilUUID = true /\ wfUUID Namespace_DNS = true /\
"a"%string <> EmptyString /\
u (UUID_GenerateV3 Sample.digest16 NilUUID Namespace_DNS "a")
= specNameBased 3 (Sample.digest16 (u Namespace_DNS ++ bytesOf "a")) /\
u (UUID_GenerateV5 Sample.digest20 NilUUID Namespace_DNS "a")
= specNameBased 5 (Sample.digest20 (u Namespace_DNS ++ bytesOf "a")).
Proof.
split; [exact digest16_length|]. split; [exact digest20_length|].
split; [reflexivity|]. split; [reflexivity|]. split; [discriminate|].
apply (name_based_is_stamped_digest
         Sample.digest16 Sample.digest20 NilUUID Namespace_DNS "a"
         digest16_length digest20_length);
  [reflexivity | reflexivity | discriminate].
Defined.

(** C8 at a concrete input: when the random source delivers six zero bytes
  for the node id, [initNodeId] sets the bit in the last octet,
  [nodeId[5]], and a v1 identifier made afterwards has the least
  significant bit of byte 10 clear and that of byte 15 set. *)
Lemma node_bit_is_set_in_last_octet :
nodeId (init [0; 0; 0; 0; 0; 0] [0; 0]) = [0; 0; 0; 0; 0; 1] /\
Z.land (at_ (fst (GenerateV1 Sample.now (init [0; 0; 0; 0; 0; 0] [0; 0])))
            10) 1 = 0 /\
Z.land (at_ (fst (GenerateV1 Sample.now (init [0; 0; 0; 0; 0; 0] [0; 0])))
            15) 1 = 1.
Proof. repeat split; reflexivity. Qed.

(** Whatever the random source delivers, the bit [initNodeId] sets is the
  least significant bit of the last octet. *)
Lemma initNodeId_sets_last_octet randomNode randomClock :
Z.land (nth 5 (nodeId (init randomNode randomClock)) 0) 1 = 1.
Proof.
unfold init, initClockSeq, initNodeId, randRead. cbn [nodeId].
rewrite nth_store_same by (rewrite length_copy; cbn; lia).
generalize (nth 5 (copy (nodeId zeroState) randomNode) 0). intros b.
rewrite Z.land_lor_distr_l. change (Z.land 1 1) with 1.
pose proof (land_mask_bound b 1 ltac:(lia)) as Hb.
change (Z.ones 1) with 1 in Hb. change (2 ^ 1) with 2 in Hb.
assert (E : Z.land b 1 = 0 \/ Z.land b 1 = 1) by lia.
destruct E as [-> | ->]; reflexivity.
Qed.

(** C10. Of the generation state, a generator other than [GenerateV1]
  changes nothing and [GenerateV1] leaves [nodeId] as it is; so after
  [init], through any sequence of generator calls, [nodeId] keeps its
  initial value and every v1 identifier produced carries it in bytes 10
  to 15. *)
Theorem node_id_frame
      (md5sum sha1sum : list byte -> list byte)
      (randomNode randomClock : list byte) (prog : list (UUID * call)) :
Forall (fun xc => wfUUID (fst xc) = true) prog ->
let st0 := init randomNode randomClock in
(forall c x st, isV1 c = false -> snd (exec md5sum sha1sum c x st) = st) /\
(forall c x st, nodeId (snd (exec md5sum sha1sum c x st)) = nodeId st) /\
nodeId (snd (run md5sum sha1sum prog st0)) = nodeId st0 /\
Forall (fun cr => isV1 (fst cr) = true ->
                  skipn 10 (u (snd cr)) = nodeId st0)
       (fst (run md5sum sha1sum prog st0)).
Proof.
intros Hp st0.
split; [intros c x st; apply exec_state_other|].
split; [intros c x st; apply exec_nodeId|].
apply run_frame.
- eapply Forall_impl; [|exact Hp]. intros xc H. apply wfUUID_length, H.
- apply length_nodeId_init.
Qed.

Lemma node_id_frame_witness :
Forall (fun xc => wfUUID (fst xc) = true) Sample.program /\
(forall c x st,
    isV1 c = false ->
    snd (exec Sample.digest16 Sample.digest20 c x st) = st) /\
(forall c x st,
    nodeId (snd (exec Sample.digest16 Sample.digest20 c x st)) = nodeId st) /\
nodeId (snd (run Sample.digest16 Sample.digest20 Sample.program
                 (init [1; 2; 3; 4; 5; 6] [7; 8])))
= nodeId (init [1; 2; 3; 4; 5; 6] [7; 8]) /\
Forall (fun cr => isV1 (fst cr) = true ->
                  skipn 10 (u (snd cr))
                  = nodeId (init [1; 2; 3; 4; 5; 6] [7; 8]))
       (fst (run Sample.digest16 Sample.digest20 Sample.program
                 (init [1; 2; 3; 4; 5; 6] [7; 8]))).
Proof.
assert (Hp : Forall (fun xc => wfUUID (fst xc) = true) Sample.program)
  by (repeat constructor).
split; [exact Hp|].
exact (node_id_frame Sample.digest16 Sample.digest20
                     [1; 2; 3; 4; 5; 6] [7; 8] Sample.program Hp).
Defined.

(** C3 (as the code has it). [Parse] reports no error on every canonical
  string and an error on ["not-a-uuid"]; on an input of at most [hugeWid]
  runes it reports no error exactly when the input is in the language of
  the format: sixteen byte fields, a hyphen right after the 4th, 6th, 8th
  and 10th, then anything, a byte field being white space without a
  newline followed by one or two hex digits of either case. *)
Theorem parse_accepts_format_language (x : UUID) (s : string) :
wfUUID x = true ->
(canonical s = true -> snd (UUID_Parse x s) = false) /\
snd (UUID_Parse x "not-a-uuid") = true /\
(Z.of_nat (length (runes s)) <= hugeWid ->
 (snd (UUID_Parse x s) = false <-> Lenient.accepted s)).
Proof.
intros Hx. apply wfUUID_length in Hx.
assert (Hiff : fits (runes s) 0 ->
               (snd (UUID_Parse x s) = false <-> Lenient.accepted s)).
{ intros Hf. unfold UUID_Parse, Sscanf, newScanState, Lenient.accepted.
  destruct (doScanf uuidFormat (u x) 0 (mkSS (runes s) 0))
    as [[a' n] [e|]] eqn:E; cbn [snd].
  - split; [discriminate|]. intros [rest Hm].
    destruct (matches_doScanf uuidFormat (u x) 0 (runes s) 0 rest)
      as (a2 & n2 & E2); [rewrite Hx; reflexivity | assumption.. |].
    rewrite E2 in E. discriminate.
  - split; [|reflexivity]. intros _.
    eapply doScanf_matches; [apply uuidFormat_width2 | exact Hf | exact E]. }
split; [|split].
- intros Hc. apply CanonicalFacts.canonical_matches in Hc.
  destruct Hc as [Hm Hl]. apply Hiff.
  + unfold fits. rewrite Hl, hugeWid_val. lia.
  + exists []. exact Hm.
- destruct x as [a]. cbn [u] in Hx. RoundTrip.explode a Hx. reflexivity.
- intros Hl. apply Hiff. unfold fits. lia.
Qed.

Lemma parse_accepts_format_language_witness :
wfUUID NilUUID = true /\
(canonical "d1723894-5fe7-11e7-907b-a6006ad3dba0" = true ->
 snd (UUID_Parse NilUUID "d1723894-5fe7-11e7-907b-a6006ad3dba0") = false) /\
snd (UUID_Parse NilUUID "not-a-uuid") = true /\
(Z.of_nat (length (runes "d1723894-5fe7-11e7-907b-a6006ad3dba0")) <= hugeWid ->
 (snd (UUID_Parse NilUUID "d1723894-5fe7-11e7-907b-a6006ad3dba0") = false
  <-> Lenient.accepted "d1723894-5fe7-11e7-907b-a6006ad3dba0")).
Proof.
split; [reflexivity|].
apply (parse_accepts_format_language
         NilUUID "d1723894-5fe7-11e7-907b-a6006ad3dba0").
reflexivity.
Defined.

(** C3 fails as stated: [Parse] reports no error on strings that deviate
  from the canonical pattern: upper-case digits, a group one digit short
  (wrong length), text after the last field (wrong length), a character
  that is no hex digit in the last position, blanks before fields. *)
Lemma parse_accepts_noncanonical :
(canonical "D1723894-5FE7-11E7-907B-A6006AD3DBA0" = false /\
 snd (Parse "D1723894-5FE7-11E7-907B-A6006AD3DBA0") = false) /\
(canonical "d172389-5fe7-11e7-907b-a6006ad3dba0" = false /\
 snd (Parse "d172389-5fe7-11e7-907b-a6006ad3dba0") = false) /\
(canonical "d1723894-5fe7-11e7-907b-a6006ad3dba0-and-more" = false /\
 snd (Parse "d1723894-5fe7-11e7-907b-a6006ad3dba0-and-more") = false) /\
(canonical "d1723894-5fe7-11e7-907b-a6006ad3dbaZ" = false /\
 snd (Parse "d1723894-5fe7-11e7-907b-a6006ad3dbaZ") = false) /\
(canonical " d1 72 38 94- 5fe7-11e7-907b-a6006ad3dba0" = false /\
 snd (Parse " d1 72 38 94- 5fe7-11e7-907b-a6006ad3dba0") = false).
Proof. repeat split; reflexivity. Qed.




End Claims.

(** * Further properties of the code *)

Module Extras.
Import Scan ScanSpec ScanFacts StringFacts.

(** ** The timestamp *)

Lemma int64_small x : - 2 ^ 63 <= x < 2 ^ 63 -> int64 x = x.
Proof. intros H. unfold int64. rewrite Z.mod_small by lia. lia. Qed.

Lemma isInt64_range x : isInt64 x = true -> - 2 ^ 63 <= x < 2 ^ 63.
Proof.
  unfold isInt64. intros H. apply andb_prop in H. destruct H as [H1 H2].
  apply Z.leb_le in H1. apply Z.ltb_lt in H2. lia.
Qed.

Lemma ticks_range unixNano :
  isInt64 unixNano = true -> 0 < Z.quot unixNano 100 + OFFSETNS < 2 ^ 60.
Proof.
  intros H. apply isInt64_range in H. unfold OFFSETNS.
  Z.quot_rem_to_equations. lia.
Qed.

(** X1. For every value the clock can return, [getTimestampV1] returns the
    count of 100 ns ticks plus the epoch offset, without wrap-around, and
    the count is positive and fits the 60 bits the layout has for it. *)
Theorem timestamp_fits_sixty_bits (unixNano : Z) (st : genState) :
  isInt64 unixNano = true ->
  fst (getTimestampV1 unixNano st) = Z.quot unixNano 100 + OFFSETNS /\
  0 < fst (getTimestampV1 unixNano st) < 2 ^ 60.
Proof.
  intros H. pose proof (ticks_range unixNano H) as Hr.
  unfold getTimestampV1. cbn [fst].
  rewrite int64_small by lia. split; [reflexivity | exact Hr].
Qed.

Lemma timestamp_fits_sixty_bits_witness :
  isInt64 Sample.now = true /\
  fst (getTimestampV1 Sample.now Sample.state)
  = Z.quot Sample.now 100 + OFFSETNS /\
  0 < fst (getTimestampV1 Sample.now Sample.state) < 2 ^ 60.
Proof.
  split; [reflexivity|].
  apply (timestamp_fits_sixty_bits Sample.now Sample.state). reflexivity.
Defined.

(** ** The layout [GenerateV1] writes *)

Lemma lor_bit12 l : 0 <= l < 4096 -> Z.lor l 0x1000 = l + 4096.
Proof.
  intros H. change 0x1000 with (2 ^ 12). rewrite lor_high_bit by lia.
  reflexivity.
Qed.

Lemma lor_bit15 l : 0 <= l < 16384 -> Z.lor l 0x8000 = l + 32768.
Proof.
  intros H. change 0x8000 with (2 ^ 15). rewrite lor_high_bit by lia.
  reflexivity.
Qed.

Lemma pack_time ts :
  (toByte (Z.shiftr (uint16 (Z.lor (Z.land (Z.shiftr ts 48) 0x0FFF) 0x1000)) 8)
   mod 16) * 2 ^ 56
  + toByte (uint16 (Z.lor (Z.land (Z.shiftr ts 48) 0x0FFF) 0x1000)) * 2 ^ 48
  + toByte (Z.shiftr (uint16 (Z.land (Z.shiftr ts 32) 0xFFFF)) 8) * 2 ^ 40
  + toByte (uint16 (Z.land (Z.shiftr ts 32) 0xFFFF)) * 2 ^ 32
  + toByte (Z.shiftr (uint32 ts) 24) * 2 ^ 24
  + toByte (Z.shiftr (uint32 ts) 16) * 2 ^ 16
  + toByte (Z.shiftr (uint32 ts) 8) * 2 ^ 8
  + toByte (uint32 ts)
  = ts mod 2 ^ 60.
Proof.
  pose proof (land_mask_bound (Z.shiftr ts 48) 12 ltac:(lia)) as Hb.
  change (Z.ones 12) with 0x0FFF in Hb. change (2 ^ 12) with 4096 in Hb.
  rewrite (lor_bit12 _ Hb).
  change 0x0FFF with (Z.ones 12). change 0xFFFF with (Z.ones 16).
  rewrite !Z.land_ones by lia.
  rewrite !Z.shiftr_div_pow2 by lia.
  unfold toByte, uint16, uint32.
  Z.div_mod_to_equations; lia.
Qed.

Lemma pack_clock cs :
  (toByte (Z.shiftr (Z.lor (Z.land cs 0x3fff) 0x8000) 8) mod 64) * 2 ^ 8
  + toByte (Z.lor (Z.land cs 0x3fff) 0x8000)
  = cs mod 2 ^ 14.
Proof.
  pose proof (land_mask_bound cs 14 ltac:(lia)) as Hb.
  change (Z.ones 14) with 0x3fff in Hb. change (2 ^ 14) with 16384 in Hb.
  rewrite (lor_bit15 _ Hb).
  change 0x3fff with (Z.ones 14).
  rewrite !Z.land_ones by lia.
  rewrite !Z.shiftr_div_pow2 by lia.
  unfold toByte.
  Z.div_mod_to_equations; lia.
Qed.

(** The first ten bytes, whatever the state holds. *)
Lemma GenerateV1_fields x unixNano st :
  length (u x) = 16%nat ->
  timestampOf (fst (UUID_GenerateV1 x unixNano st))
  = fst (getTimestampV1 unixNano st) mod 2 ^ 60 /\
  clockSeqOf (fst (UUID_GenerateV1 x unixNano st))
  = clockSeq (snd (UUID_GenerateV1 x unixNano st)) mod 2 ^ 14.
Proof.
  intros Hx. unfold UUID_GenerateV1, timestampOf, clockSeqOf, at_.
  destruct (getTimestampV1 unixNano st) as [ts st']. cbn [fst snd u].
  rewrite !nth_copyAt_before by (rewrite ?length_store; lia).
  repeat first
         [ rewrite nth_store_other by lia
         | rewrite nth_store_same by (rewrite ?length_store; lia) ].
  split; [apply pack_time | apply pack_clock].
Qed.

Lemma wfState_parts st :
  wfState st = true ->
  0 <= clockSeq st < 2 ^ 14 /\ length (nodeId st) = 6%nat /\
  forallb isByte (nodeId st) = true.
Proof.
  unfold wfState. intros H.
  apply andb_prop in H. destruct H as [H Hb].
  apply andb_prop in H. destruct H as [H Hl].
  apply andb_prop in H. destruct H as [H1 H2].
  apply Z.leb_le in H1. apply Z.ltb_lt in H2. apply Nat.eqb_eq in Hl.
  auto.
Qed.

Lemma clockSeq_after unixNano st :
  0 <= clockSeq st < 2 ^ 14 ->
  0 <= clockSeq (snd (getTimestampV1 unixNano st)) < 2 ^ 14.
Proof.
  intros H. unfold getTimestampV1. cbn [snd clockSeq].
  destruct (_ <=? lastTime st); [|exact H].
  apply (land_mask_bound _ 14). lia.
Qed.

(** X2. [GenerateV1] writes the fields where the layout has them: read
    back from the identifier, the timestamp is the one [getTimestampV1]
    returned, the clock sequence is the value [clockSeq] has after the
    call, and the node is [nodeId]. *)
Theorem v1_fields_read_back (x : UUID) (unixNano : Z) (st : genState) :
  wfUUID x = true -> isInt64 unixNano = true -> wfState st = true ->
  timestampOf (fst (UUID_GenerateV1 x unixNano st))
  = fst (getTimestampV1 unixNano st) /\
  clockSeqOf (fst (UUID_GenerateV1 x unixNano st))
  = clockSeq (snd (UUID_GenerateV1 x unixNano st)) /\
  nodeOf (fst (UUID_GenerateV1 x unixNano st))
  = nodeId (snd (UUID_GenerateV1 x unixNano st)).
Proof.
  intros Hx Ht Hst.
  apply Claims.wfUUID_length in Hx.
  destruct (wfState_parts st Hst) as (Hcs & Hn & _).
  destruct (GenerateV1_fields x unixNano st Hx) as [Htime Hclock].
  pose proof (ticks_range unixNano Ht) as Hr.
  split; [|split].
  - rewrite Htime. apply Z.mod_small.
    unfold getTimestampV1. cbn [fst]. rewrite int64_small by lia. lia.
  - rewrite Hclock. apply Z.mod_small.
    rewrite GenerateV1_state. apply clockSeq_after. exact Hcs.
  - unfold nodeOf. rewrite GenerateV1_node by assumption.
    rewrite GenerateV1_state. reflexivity.
Qed.

Lemma v1_fields_read_back_witness :
  wfUUID NilUUID = true /\ isInt64 Sample.now = true /\
  wfState Sample.state = true /\
  timestampOf (fst (UUID_GenerateV1 NilUUID Sample.now Sample.state))
  = fst (getTimestampV1 Sample.now Sample.state) /\
  clockSeqOf (fst (UUID_GenerateV1 NilUUID Sample.now Sample.state))
  = clockSeq (snd (UUID_GenerateV1 NilUUID Sample.now Sample.state)) /\
  nodeOf (fst (UUID_GenerateV1 NilUUID Sample.now Sample.state))
  = nodeId (snd (UUID_GenerateV1 NilUUID Sample.now Sample.state)).
Proof.
  split; [reflexivity|]. split; [reflexivity|]. split; [reflexivity|].
  apply (v1_fields_read_back NilUUID Sample.now Sample.state); reflexivity.
Defined.

(** X3. Two calls of [GenerateV1] in a row never leave the same
    identifier: either the clock advanced and the timestamps differ, or it
    did not and the clock sequence was incremented. *)
Theorem consecutive_v1_differ (x1 x2 : UUID) (t1 t2 : Z) (st : genState) :
  wfUUID x1 = true -> wfUUID x2 = true ->
  isInt64 t1 = true -> isInt64 t2 = true ->
  fst (UUID_GenerateV1 x1 t1 st)
  <> fst (UUID_GenerateV1 x2 t2 (snd (UUID_GenerateV1 x1 t1 st))).
Proof.
  intros Hx1 Hx2 Ht1 Ht2 Heq.
  apply Claims.wfUUID_length in Hx1. apply Claims.wfUUID_length in Hx2.
  destruct (GenerateV1_fields x1 t1 st Hx1) as [Ha1 Hb1].
  destruct (GenerateV1_fields x2 t2 (snd (UUID_GenerateV1 x1 t1 st)) Hx2)
    as [Ha2 Hb2].
  rewrite <- Heq in Ha2, Hb2. rewrite Ha1 in Ha2. rewrite Hb1 in Hb2.
  rewrite !GenerateV1_state in Hb2. rewrite GenerateV1_state in Ha2.
  pose proof (ticks_range t1 Ht1) as Hr1.
  pose proof (ticks_range t2 Ht2) as Hr2.
  unfold getTimestampV1 in Ha2, Hb2.
  cbn [fst snd clockSeq lastTime] in Ha2, Hb2.
  rewrite !int64_small in Ha2, Hb2 by lia.
  rewrite !Z.mod_small in Ha2 by lia.
  rewrite Ha2 in Hb2.
  rewrite Z.leb_refl in Hb2.
  set (cs := if _ <=? lastTime st then _ else _) in Hb2.
  rewrite Claims.land_succ_mask in Hb2.
  rewrite Z.mod_mod in Hb2 by lia.
  revert Hb2. generalize cs. intros c Hc.
  change (2 ^ 14) with 16384 in Hc.
  Z.div_mod_to_equations. lia.
Qed.

Lemma consecutive_v1_differ_witness :
  wfUUID NilUUID = true /\ wfUUID Namespace_DNS = true /\
  isInt64 Sample.now = true /\ isInt64 (Sample.now - 5000) = true /\
  fst (UUID_GenerateV1 NilUUID Sample.now Sample.state)
  <> fst (UUID_GenerateV1 Namespace_DNS (Sample.now - 5000)
            (snd (UUID_GenerateV1 NilUUID Sample.now Sample.state))).
Proof.
  split; [reflexivity|]. split; [reflexivity|].
  split; [reflexivity|]. split; [reflexivity|].
  apply (consecutive_v1_differ NilUUID Namespace_DNS
                               Sample.now (Sample.now - 5000) Sample.state);
    reflexivity.
Defined.

(** ** Initialisation and the state invariant *)

Lemma forallb_copy dst : forall src,
  forallb isByte dst = true -> forallb isByte src = true ->
  forallb isByte (copy dst src) = true.
Proof.
  induction dst as [|d dt IH]; intros [|s st] Hd Hs; cbn in *; auto.
  apply andb_prop in Hd. apply andb_prop in Hs.
  destruct Hd as [_ Hd]. destruct Hs as [Hs0 Hs].
  rewrite Hs0. cbn. apply IH; assumption.
Qed.

Lemma isByte_range b : isByte b = true <-> 0 <= b < 256.
Proof. unfold isByte. to_prop. lia. Qed.

Lemma isByte_toByte x : isByte (toByte x) = true.
Proof.
  apply isByte_range. unfold toByte. change (2 ^ 8) with 256.
  apply Z.mod_pos_bound. lia.
Qed.

Lemma lor_one b : 0 <= b < 256 -> Z.lor b 1 = 2 * (b / 2) + 1.
Proof.
  intros H. apply Z.eqb_eq. revert b H.
  apply (forall_below (fun b => Z.lor b 1 =? 2 * (b / 2) + 1) 256).
  vm_compute. reflexivity.
Qed.

Lemma nth_isByte a i :
  forallb isByte a = true -> isByte (nth i a 0) = true.
Proof.
  revert i; induction a as [|h t IH]; intros [|i] H; cbn in *; auto;
    apply andb_prop in H; destruct H; auto.
Qed.

Lemma wfState_init randomNode randomClock :
  forallb isByte randomNode = true ->
  wfState (init randomNode randomClock) = true.
Proof.
  intros Hr. unfold wfState, init, initClockSeq, initNodeId, randRead.
  cbn [clockSeq nodeId lastTime zeroState].
  set (n := copy (repeat 0 6) randomNode).
  assert (Hn : forallb isByte n = true) by (apply forallb_copy; auto).
  pose proof (land_mask_bound
                (uint16 (uint16 (nth 1 (copy [0; 0] randomClock) 0)
                         + uint16 (Z.shiftl
                                     (uint16 (nth 0 (copy [0; 0] randomClock) 0))
                                     8)))
                14 ltac:(lia)) as Hc.
  change (Z.ones 14) with 0x3FFF in Hc.
  rewrite length_store. unfold n at 1. rewrite length_copy.
  rewrite forallb_store.
  - rewrite andb_true_r. cbn [repeat length Nat.eqb]. rewrite andb_true_r.
    to_prop. lia.
  - exact Hn.
  - pose proof (nth_isByte n 5 Hn) as H5. apply isByte_range in H5.
    apply isByte_range. unfold byte in *. rewrite lor_one by lia.
    Z.div_mod_to_equations. lia.
Qed.

Section StateFacts.

Variable md5sum : list byte -> list byte.
Variable sha1sum : list byte -> list byte.

Lemma wfState_exec c x st :
  wfState st = true -> wfState (snd (exec md5sum sha1sum c x st)) = true.
Proof.
  intros H. destruct c; cbn [exec snd]; try exact H.
  rewrite GenerateV1_state.
  destruct (wfState_parts st H) as (Hc & Hl & Hb).
  pose proof (clockSeq_after unixNano st Hc) as Hc'.
  unfold wfState. rewrite getTimestampV1_nodeId, Hl, Hb.
  cbn [Nat.eqb]. rewrite !andb_true_r. to_prop. lia.
Qed.

Lemma wfState_run prog : forall st,
  wfState st = true -> wfState (snd (run md5sum sha1sum prog st)) = true.
Proof.
  induction prog as [|[x c] rest IH]; intros st H; cbn [run]; [exact H|].
  pose proof (wfState_exec c x st H) as He.
  destruct (exec md5sum sha1sum c x st) as [r st1]. cbn [snd] in He.
  specialize (IH st1 He).
  destruct (run md5sum sha1sum rest st1) as [out st2]. exact IH.
Qed.

End StateFacts.

(** X4. After [init], and after any sequence of generator calls, the clock
    sequence is a 14-bit value and the node id is six bytes: no call takes
    [clockSeq] out of [0, 2^14). *)
Theorem state_stays_valid
        (md5sum sha1sum : list byte -> list byte)
        (randomNode randomClock : list byte) (prog : list (UUID * call)) :
  forallb isByte randomNode = true ->
  wfState (init randomNode randomClock) = true /\
  wfState (snd (run md5sum sha1sum prog (init randomNode randomClock))) = true.
Proof.
  intros Hr. pose proof (wfState_init randomNode randomClock Hr) as Hi.
  split; [exact Hi | apply wfState_run; exact Hi].
Qed.

Lemma state_stays_valid_witness :
  forallb isByte [1; 2; 3; 4; 5; 6] = true /\
  wfState (init [1; 2; 3; 4; 5; 6] [7; 8]) = true /\
  wfState (snd (run Sample.digest16 Sample.digest20 Sample.program
                    (init [1; 2; 3; 4; 5; 6] [7; 8]))) = true.
Proof.
  split; [reflexivity|].
  apply (state_stays_valid Sample.digest16 Sample.digest20
                           [1; 2; 3; 4; 5; 6] [7; 8] Sample.program).
  reflexivity.
Defined.

(** X5. What [init] leaves, from the eight random bytes it draws: the
    clock sequence is the low 14 bits of the two clock bytes read most
    significant first; the node id is the six node bytes with the least
    significant bit of the last one set and every other bit as drawn. *)
Theorem init_values (n0 n1 n2 n3 n4 n5 c0 c1 : byte) :
  forallb isByte [n0; n1; n2; n3; n4; n5; c0; c1] = true ->
  clockSeq (init [n0; n1; n2; n3; n4; n5] [c0; c1]) = (c0 mod 64) * 256 + c1 /\
  nodeId (init [n0; n1; n2; n3; n4; n5] [c0; c1])
  = [n0; n1; n2; n3; n4; 2 * (n5 / 2) + 1] /\
  lastTime (init [n0; n1; n2; n3; n4; n5] [c0; c1]) = 0.
Proof.
  intros H. cbn [forallb] in H.
  repeat (apply andb_prop in H; destruct H as [?Hb H]).
  repeat match goal with
         | Hb : isByte _ = true |- _ => apply isByte_range in Hb
         end.
  unfold init, initClockSeq, initNodeId, randRead.
  cbn [clockSeq nodeId lastTime zeroState repeat copy nth store].
  split; [|split; [|reflexivity]].
  - change 0x3FFF with (Z.ones 14). rewrite Z.land_ones by lia.
    rewrite Z.shiftl_mul_pow2 by lia. unfold uint16.
    Z.div_mod_to_equations. lia.
  - rewrite lor_one by lia. reflexivity.
Qed.

Lemma init_values_witness :
  forallb isByte [1; 2; 3; 4; 5; 6; 255; 8] = true /\
  clockSeq (init [1; 2; 3; 4; 5; 6] [255; 8]) = (255 mod 64) * 256 + 8 /\
  nodeId (init [1; 2; 3; 4; 5; 6] [255; 8]) = [1; 2; 3; 4; 5; 2 * (6 / 2) + 1] /\
  lastTime (init [1; 2; 3; 4; 5; 6] [255; 8]) = 0.
Proof.
  split; [reflexivity|].
  apply (init_values 1 2 3 4 5 6 255 8). reflexivity.
Defined.

(** ** [String] and [Parse] on canonical text *)

Lemma asciiOfByte_byteOfAscii c : asciiOfByte (byteOfAscii c) = c.
Proof.
  unfold asciiOfByte, byteOfAscii. rewrite N2Z.id. apply ascii_N_embedding.
Qed.

Lemma isLowerHex_hexDigit n : 0 <= n < 16 -> isLowerHex (hexDigit n) = true.
Proof.
  intros H. destruct (hexDigitCode_facts n H) as (_ & _ & Hr).
  unfold isLowerHex, hexDigit. cbv zeta.
  rewrite byteOfAscii_asciiOfByte by lia.
  unfold hexDigitCode. destruct (Z.ltb_spec n 10); to_prop; lia.
Qed.

Ltac nibble_facts :=
  repeat match goal with
         | H : isByte ?b = true |- _ =>
           let Hhi := fresh "Hhi" in
           let Hlo := fresh "Hlo" in
           destruct (nibbles b H) as (Hhi & Hlo & _);
           apply isLowerHex_hexDigit in Hhi;
           apply isLowerHex_hexDigit in Hlo;
           clear H
         end.

(** X6. [String] always gives 36 characters, and for every identifier they
    are in canonical form: lower-case hex digits, hyphens at positions 8,
    13, 18 and 23. *)
Theorem string_is_canonical (x : UUID) :
  wfUUID x = true ->
  String.length (UUID_String x) = 36%nat /\ canonical (UUID_String x) = true.
Proof.
  intros Hx. split; [reflexivity|].
  unfold wfUUID in Hx. apply andb_prop in Hx. destruct Hx as [Hl Hb].
  apply Nat.eqb_eq in Hl. destruct x as [a]. cbn [u] in *.
  RoundTrip.explode a Hl. cbn [forallb] in Hb.
  repeat (apply andb_prop in Hb; destruct Hb as [? Hb]).
  nibble_facts.
  unfold UUID_String, fmt02x, canonical.
  cbn [at_ nth u append canonicalFrom isHyphenPos Nat.eqb orb].
  repeat match goal with
         | H : isLowerHex _ = true |- _ => rewrite H; clear H
         end.
  reflexivity.
Qed.

Lemma string_is_canonical_witness :
  wfUUID Namespace_DNS = true /\
  String.length (UUID_String Namespace_DNS) = 36%nat /\
  canonical (UUID_String Namespace_DNS) = true.
Proof.
  split; [reflexivity|]. apply (string_is_canonical Namespace_DNS). reflexivity.
Defined.

(** X7. [String] is injective: two identifiers with the same text are the
    same sixteen bytes. *)
Theorem string_injective (x y : UUID) :
  wfUUID x = true -> wfUUID y = true ->
  UUID_String x = UUID_String y -> x = y.
Proof.
  intros Hx Hy E.
  pose proof (RoundTrip.Parse_String NilUUID x eq_refl Hx) as Px.
  pose proof (RoundTrip.Parse_String NilUUID y eq_refl Hy) as Py.
  rewrite E in Px. rewrite Px in Py. injection Py as Py. exact Py.
Qed.

Lemma string_injective_witness :
  wfUUID NilUUID = true /\ wfUUID (mkUUID (repeat 0 16)) = true /\
  UUID_String NilUUID = UUID_String (mkUUID (repeat 0 16)) /\
  NilUUID = mkUUID (repeat 0 16).
Proof.
  split; [reflexivity|]. split; [reflexivity|]. split; [reflexivity|].
  apply (string_injective NilUUID (mkUUID (repeat 0 16))); reflexivity.
Defined.

(** Scanning two hex digits and a literal, whatever follows them. *)
Lemma scanUint8_two c1 c2 rest cnt :
  isHexDigit c1 = true -> isHexDigit c2 = true -> cnt + 2 <= hugeWid ->
  scanUint8 (Z.min hugeWid (cnt + 2)) (mkSS (c1 :: c2 :: rest) cnt)
  = Ok (hexVal c1 * 16 + hexVal c2, mkSS rest (cnt + 2)).
Proof.
  intros H1 H2 Hc.
  pose proof (hexVal_range c1 H1). pose proof (hexVal_range c2 H2).
  unfold scanUint8. cbn [rs count].
  rewrite SkipSpace_stop by (lia || apply hex_not_space; assumption).
  cbn [bind]. unfold scanNumber, notEOF. cbn [rs count bind].
  destruct (Z.leb_spec (Z.min hugeWid (cnt + 2)) cnt); [lia|].
  cbn [bind]. rewrite H1. cbn [acceptDigits].
  destruct (Z.leb_spec (Z.min hugeWid (cnt + 2)) (cnt + 1)); [lia|].
  rewrite H2.
  assert (E : acceptDigits (Z.min hugeWid (cnt + 2)) rest (cnt + 1 + 1)
                           ([c1] ++ [c2])
              = ([c1; c2], mkSS rest (cnt + 1 + 1))).
  { destruct rest; cbn [acceptDigits];
      destruct (Z.leb_spec (Z.min hugeWid (cnt + 2)) (cnt + 1 + 1));
      reflexivity || lia. }
  rewrite E. cbn [bind fst snd].
  rewrite ParseUint_two by assumption. cbn [bind].
  rewrite fits_byte by lia.
  replace (cnt + 1 + 1) with (cnt + 2) by lia. reflexivity.
Qed.

Lemma doScanf_two_digits f a k c1 c2 rest cnt :
  isHexDigit c1 = true -> isHexDigit c2 = true -> cnt + 2 <= hugeWid ->
  (k < length a)%nat ->
  doScanf (HexVerb 2 :: f) a k (mkSS (c1 :: c2 :: rest) cnt)
  = doScanf f (store a k (hexVal c1 * 16 + hexVal c2)) (S k)
            (mkSS rest (cnt + 2)).
Proof.
  intros H1 H2 Hc Hk. cbn [doScanf rs count].
  rewrite SkipSpace_stop by (lia || apply hex_not_space; assumption).
  destruct (Nat.leb_spec (length a) k); [lia|].
  cbn [count]. rewrite scanUint8_two by assumption. reflexivity.
Qed.

Lemma doScanf_literal f a k c rest cnt :
  cnt < hugeWid ->
  doScanf (Lit c :: f) a k (mkSS (c :: rest) cnt)
  = doScanf f a k (mkSS rest (cnt + 1)).
Proof.
  intros Hc. cbn [doScanf]. unfold advanceLit. cbn [rs count].
  destruct (Z.leb_spec hugeWid cnt); [lia|].
  rewrite Z.eqb_refl. reflexivity.
Qed.

Ltac peel_hex s H :=
  destruct s as [|? s]; [discriminate H|];
  cbn [canonicalFrom isHyphenPos Nat.eqb orb] in H;
  apply andb_prop in H;
  let Hc := fresh "Hc" in destruct H as [Hc H];
  try apply Z.eqb_eq in Hc.

Ltac wide_side :=
  first [ assumption
        | rewrite hugeWid_val; lia
        | cbn [store length]; lia ].

(** A canonical string, whatever follows it, parses to the bytes it
    denotes. *)
Lemma Parse_canonical s x t :
  canonical s = true -> length (u x) = 16%nat ->
  UUID_Parse x (s ++ t) = (mkUUID (canonicalBytes s), false).
Proof.
  unfold canonical. intros H Hx.
  do 36 (peel_hex s H).
  apply CanonicalFacts.canonicalFrom_end in H. subst s.
  repeat match goal with
         | Hc : isLowerHex _ = true |- _ =>
           apply CanonicalFacts.lowerHex_rune in Hc; destruct Hc
         end.
  destruct x as [arr]. cbn [u] in Hx. RoundTrip.explode arr Hx.
  unfold UUID_Parse, Sscanf. cbn [append u].
  repeat (rewrite runes_cons by lia).
  repeat match goal with
         | E : byteOfAscii _ = 45 |- _ => rewrite E; clear E
         end.
  cbv [uuidFormat newScanState].
  repeat first [ rewrite doScanf_two_digits by wide_side
               | rewrite doScanf_literal by wide_side ].
  reflexivity.
Qed.

Lemma lowerHex_digit c :
  isLowerHex c = true -> hexDigit (hexVal (byteOfAscii c)) = c.
Proof.
  intros H. rewrite <- (asciiOfByte_byteOfAscii c) at 2.
  unfold hexDigit. f_equal.
  unfold isLowerHex in H. cbv zeta in H.
  unfold hexVal, hexDigitCode.
  destruct ((48 <=? byteOfAscii c) && (byteOfAscii c <=? 57)) eqn:E1.
  - to_prop. destruct (Z.ltb_spec (byteOfAscii c - 48) 10); lia.
  - cbn [orb] in H. rewrite H. to_prop.
    destruct (Z.ltb_spec (byteOfAscii c - 97 + 10) 10); lia.
Qed.

Lemma lowerHex_val c :
  isLowerHex c = true -> 0 <= hexVal (byteOfAscii c) < 16.
Proof.
  intros H. apply hexVal_range.
  apply CanonicalFacts.lowerHex_rune. exact H.
Qed.

Lemma fmt02x_pair c1 c2 :
  isLowerHex c1 = true -> isLowerHex c2 = true ->
  fmt02x (hexVal (byteOfAscii c1) * 16 + hexVal (byteOfAscii c2))
  = String c1 (String c2 EmptyString).
Proof.
  intros H1 H2.
  pose proof (lowerHex_val c1 H1) as R1. pose proof (lowerHex_val c2 H2) as R2.
  unfold fmt02x.
  rewrite Z.shiftr_div_pow2 by lia.
  change 15 with (Z.ones 4). rewrite Z.land_ones by lia.
  change (2 ^ 4) with 16.
  replace ((hexVal (byteOfAscii c1) * 16 + hexVal (byteOfAscii c2)) / 16)
    with (hexVal (byteOfAscii c1)) by (Z.div_mod_to_equations; lia).
  replace ((hexVal (byteOfAscii c1) * 16 + hexVal (byteOfAscii c2)) mod 16)
    with (hexVal (byteOfAscii c2)) by (Z.div_mod_to_equations; lia).
  rewrite !lowerHex_digit by assumption. reflexivity.
Qed.

Lemma hyphen_char c : byteOfAscii c = 45 -> c = "-"%char.
Proof.
  intros H. rewrite <- (asciiOfByte_byteOfAscii c). rewrite H. reflexivity.
Qed.

Lemma String_canonicalBytes s :
  canonical s = true -> UUID_String (mkUUID (canonicalBytes s)) = s.
Proof.
  unfold canonical. intros H.
  do 36 (peel_hex s H).
  apply CanonicalFacts.canonicalFrom_end in H. subst s.
  repeat match goal with
         | E : byteOfAscii _ = 45 |- _ => apply hyphen_char in E; subst
         end.
  unfold UUID_String, canonicalBytes, nibbleAt.
  cbn [map String.get at_ nth u].
  repeat (rewrite fmt02x_pair by assumption).
  reflexivity.
Qed.

(** X8. On a canonical string [Parse] reports no error, and [String] of
    the identifier parsed is the string itself, whatever the receiver held
    (what [TestV1Parse] and [TestV4Parse] check on two strings). *)
Theorem parse_then_string (x : UUID) (s : string) :
  wfUUID x = true -> canonical s = true ->
  snd (UUID_Parse x s) = false /\
  UUID_String (fst (UUID_Parse x s)) = s.
Proof.
  intros Hx Hs. apply Claims.wfUUID_length in Hx.
  pose proof (Parse_canonical s x EmptyString Hs Hx) as P.
  assert (E : (s ++ "")%string = s).
  { clear. induction s as [|c t IH]; cbn; [reflexivity | rewrite IH; reflexivity]. }
  rewrite E in P. rewrite P. cbn [fst snd].
  split; [reflexivity | apply String_canonicalBytes; exact Hs].
Qed.

Lemma parse_then_string_witness :
  wfUUID Namespace_DNS = true /\
  canonical "0f2a8ca7-7ca0-4f43-b71a-d9cb041b890a" = true /\
  snd (UUID_Parse Namespace_DNS "0f2a8ca7-7ca0-4f43-b71a-d9cb041b890a") = false /\
  UUID_String (fst (UUID_Parse Namespace_DNS
                               "0f2a8ca7-7ca0-4f43-b71a-d9cb041b890a"))
  = "0f2a8ca7-7ca0-4f43-b71a-d9cb041b890a"%string.
Proof.
  split; [reflexivity|]. split; [reflexivity|].
  apply (parse_then_string Namespace_DNS "0f2a8ca7-7ca0-4f43-b71a-d9cb041b890a");
    reflexivity.
Defined.

(** X9. [Parse] does not look past the sixteenth byte: a canonical string
    followed by any text at all is accepted and gives the identifier of the
    canonical string. *)
Theorem parse_ignores_trailing_text (x : UUID) (s t : string) :
  wfUUID x = true -> canonical s = true ->
  UUID_Parse x (s ++ t) = UUID_Parse x s /\
  snd (UUID_Parse x (s ++ t)) = false.
Proof.
  intros Hx Hs. apply Claims.wfUUID_length in Hx.
  pose proof (Parse_canonical s x t Hs Hx) as Pt.
  pose proof (Parse_canonical s x EmptyString Hs Hx) as P.
  assert (E : (s ++ "")%string = s).
  { clear. induction s as [|c r IH]; cbn; [reflexivity | rewrite IH; reflexivity]. }
  rewrite E in P. rewrite Pt, P. split; reflexivity.
Qed.

Lemma parse_ignores_trailing_text_witness :
  wfUUID NilUUID = true /\
  canonical "d1723894-5fe7-11e7-907b-a6006ad3dba0" = true /\
  UUID_Parse NilUUID ("d1723894-5fe7-11e7-907b-a6006ad3dba0" ++ "}} trailing")
  = UUID_Parse NilUUID "d1723894-5fe7-11e7-907b-a6006ad3dba0" /\
  snd (UUID_Parse NilUUID
                  ("d1723894-5fe7-11e7-907b-a6006ad3dba0" ++ "}} trailing"))
  = false.
Proof.
  split; [reflexivity|]. split; [reflexivity|].
  apply (parse_ignores_trailing_text
           NilUUID "d1723894-5fe7-11e7-907b-a6006ad3dba0" "}} trailing");
    reflexivity.
Defined.

(** ** What [Parse] stores does not depend on the receiver *)

Lemma firstn_store_succ a : forall k v,
  (k < length a)%nat -> firstn (S k) (store a k v) = firstn k a ++ [v].
Proof.
  induction a as [|h t IH]; intros [|k] v H; cbn in *; try lia; auto.
  f_equal. apply IH. lia.
Qed.

Lemma doScanf_receiver format : forall a b k s,
  length a = length b -> firstn k a = firstn k b ->
  snd (doScanf format a k s) = snd (doScanf format b k s) /\
  snd (fst (doScanf format a k s)) = snd (fst (doScanf format b k s)) /\
  firstn (snd (fst (doScanf format a k s))) (fst (fst (doScanf format a k s)))
  = firstn (snd (fst (doScanf format a k s))) (fst (fst (doScanf format b k s))).
Proof.
  induction format as [|d f IH]; intros a b k s Hl Hf; cbn [doScanf].
  - rewrite <- Hl. destruct (Nat.ltb k (length a)); cbn [fst snd]; auto.
  - destruct d as [c|w].
    + destruct (advanceLit c s) as [s1|e]; [apply IH; assumption|].
      cbn [fst snd]. auto.
    + destruct (SkipSpace hugeWid (rs s) (count s)) as [s1|e];
        [|cbn [fst snd]; auto].
      rewrite <- Hl.
      destruct (Nat.leb_spec (length a) k); [cbn [fst snd]; auto|].
      destruct (scanUint8 (Z.min hugeWid (count s1 + w)) s1) as [[v s2]|e];
        [|cbn [fst snd]; auto].
      apply IH.
      * rewrite !length_store. exact Hl.
      * rewrite !firstn_store_succ by lia. rewrite Hf. reflexivity.
Qed.

Lemma doScanf_success_all format : forall a k s a' n,
  doScanf format a k s = (a', n, None) -> (length a' <= n)%nat.
Proof.
  induction format as [|d f IH]; intros a k s a' n H; cbn [doScanf] in H.
  - destruct (Nat.ltb_spec k (length a)); [discriminate|].
    injection H as <- <-. exact H0.
  - destruct d as [c|w].
    + destruct (advanceLit c s) as [s1|e]; [|discriminate]. eapply IH; eauto.
    + destruct (SkipSpace hugeWid (rs s) (count s)) as [s1|e]; [|discriminate].
      destruct (Nat.leb (length a) k); [discriminate|].
      destruct (scanUint8 (Z.min hugeWid (count s1 + w)) s1) as [[v s2]|e];
        [|discriminate].
      eapply IH; eauto.
Qed.

(** X10. What [Parse] does with a string does not depend on what the
    receiver held: the error report is the same for any two receivers, and
    when there is no error the receivers end up byte for byte the same, all
    sixteen bytes having been overwritten. *)
Theorem parse_result_independent_of_receiver (x y : UUID) (s : string) :
  wfUUID x = true -> wfUUID y = true ->
  snd (UUID_Parse x s) = snd (UUID_Parse y s) /\
  (snd (UUID_Parse x s) = false -> fst (UUID_Parse x s) = fst (UUID_Parse y s)).
Proof.
  intros Hx Hy.
  apply Claims.wfUUID_length in Hx. apply Claims.wfUUID_length in Hy.
  unfold UUID_Parse, Sscanf.
  destruct (doScanf_receiver uuidFormat (u x) (u y) 0
                             (newScanState (runes s))
                             ltac:(congruence) eq_refl) as (He & Hn & Hf).
  pose proof (doScanf_frame uuidFormat (u x) 0 (newScanState (runes s))) as Fx.
  pose proof (doScanf_frame uuidFormat (u y) 0 (newScanState (runes s))) as Fy.
  pose proof (doScanf_success_all uuidFormat (u x) 0 (newScanState (runes s)))
    as Sx.
  destruct (doScanf uuidFormat (u x) 0 (newScanState (runes s)))
    as [[ax nx] ex].
  destruct (doScanf uuidFormat (u y) 0 (newScanState (runes s)))
    as [[ay ny] ey].
  cbn [fst snd] in *. subst ey ny.
  destruct (Fx _ _ _ eq_refl) as (_ & Lx & _).
  destruct (Fy _ _ _ eq_refl) as (_ & Ly & _).
  destruct ex as [e|]; cbn [snd fst]; split; try reflexivity; try discriminate.
  intros _. f_equal.
  specialize (Sx _ _ eq_refl).
  rewrite firstn_all2 in Hf by lia.
  rewrite firstn_all2 in Hf by lia.
  exact Hf.
Qed.

Lemma parse_result_independent_of_receiver_witness :
  wfUUID NilUUID = true /\ wfUUID Namespace_DNS = true /\
  snd (UUID_Parse NilUUID "d1723894-5fe7-11e7-907b-a6006ad3dba0")
  = snd (UUID_Parse Namespace_DNS "d1723894-5fe7-11e7-907b-a6006ad3dba0") /\
  (snd (UUID_Parse NilUUID "d1723894-5fe7-11e7-907b-a6006ad3dba0") = false ->
   fst (UUID_Parse NilUUID "d1723894-5fe7-11e7-907b-a6006ad3dba0")
   = fst (UUID_Parse Namespace_DNS "d1723894-5fe7-11e7-907b-a6006ad3dba0")).
Proof.
  split; [reflexivity|]. split; [reflexivity|].
  apply (parse_result_independent_of_receiver
           NilUUID Namespace_DNS "d1723894-5fe7-11e7-907b-a6006ad3dba0");
    reflexivity.
Defined.

(** ** Identifiers the generators leave *)

Lemma forallb_firstn k : forall a : list byte,
  forallb isByte a = true -> forallb isByte (firstn k a) = true.
Proof.
  induction k as [|k IH]; intros [|h t] H; cbn in *; auto.
  apply andb_prop in H. destruct H as [Hh Ht]. rewrite Hh. cbn. auto.
Qed.

Lemma forallb_skipn k : forall a : list byte,
  forallb isByte a = true -> forallb isByte (skipn k a) = true.
Proof.
  induction k as [|k IH]; intros [|h t] H; cbn in *; auto.
  apply andb_prop in H. destruct H as [Hh Ht]. auto.
Qed.

Lemma forallb_copyAt a k src :
  forallb isByte a = true -> forallb isByte src = true ->
  forallb isByte (copyAt a k src) = true.
Proof.
  intros Ha Hs. unfold copyAt. rewrite forallb_app.
  rewrite forallb_firstn by assumption.
  apply forallb_copy; [apply forallb_skipn|]; assumption.
Qed.

Lemma wfUUID_intro a :
  length a = 16%nat -> forallb isByte a = true -> wfUUID (mkUUID a) = true.
Proof.
  intros Hl Hb. unfold wfUUID. cbn [u].
  apply andb_true_intro. split; [apply Nat.eqb_eq; exact Hl | exact Hb].
Qed.

Lemma forallb_stamp v a :
  0 <= v < 16 -> length a = 16%nat -> forallb isByte a = true ->
  forallb isByte (stamp (v * 16) a) = true.
Proof.
  intros Hv Hl Hb. rewrite stamp_stores by assumption.
  rewrite stamp_version_bits by assumption. rewrite stamp_variant_bits.
  apply forallb_store; [apply forallb_store|]; try assumption;
    apply isByte_range; unfold overwriteTop;
    change (2 ^ (8 - 4)) with 16; change (2 ^ (8 - 2)) with 64;
    Z.div_mod_to_equations; lia.
Qed.

Lemma wfUUID_GenerateV1 x unixNano st :
  wfUUID x = true -> wfState st = true ->
  wfUUID (fst (UUID_GenerateV1 x unixNano st)) = true.
Proof.
  intros Hx Hst.
  pose proof (Claims.wfUUID_length x Hx) as Hl.
  pose proof (Claims.wfUUID_bytes x Hx) as Hb.
  destruct (wfState_parts st Hst) as (_ & _ & Hn).
  unfold UUID_GenerateV1.
  pose proof (getTimestampV1_nodeId unixNano st) as En.
  destruct (getTimestampV1 unixNano st) as [ts st']. cbn [fst snd] in *.
  apply wfUUID_intro.
  - rewrite length_copyAt, !length_store. exact Hl.
  - apply forallb_copyAt; [|rewrite En; exact Hn].
    repeat (apply forallb_store; [|apply isByte_toByte]). exact Hb.
Qed.

Section GeneratedFacts.

Variable md5sum : list byte -> list byte.
Variable sha1sum : list byte -> list byte.
Hypothesis md5sum_bytes : forall m, forallb isByte (md5sum m) = true.
Hypothesis sha1sum_bytes : forall m, forallb isByte (sha1sum m) = true.

Lemma wfUUID_exec c x st :
  wfUUID x = true -> wfState st = true -> validCall c = true ->
  wfUUID (fst (exec md5sum sha1sum c x st)) = true.
Proof.
  intros Hx Hst Hc.
  pose proof (Claims.wfUUID_length x Hx) as Hl.
  pose proof (Claims.wfUUID_bytes x Hx) as Hb.
  destruct c as [unixNano | ns name | random | ns name]; cbn [exec fst].
  - apply wfUUID_GenerateV1; assumption.
  - unfold UUID_GenerateV3.
    destruct (negb (Nat.eqb (length (u ns)) 16)
              || Nat.eqb (String.length name) 0); [exact Hx|].
    apply wfUUID_intro; [rewrite length_stamp, length_copy; exact Hl|].
    apply (forallb_stamp 3); [lia | rewrite length_copy; exact Hl|].
    apply forallb_copy; auto.
  - unfold UUID_GenerateV4, randRead. cbn [validCall] in Hc.
    apply wfUUID_intro; [rewrite length_stamp, length_copy; exact Hl|].
    apply (forallb_stamp 4); [lia | rewrite length_copy; exact Hl|].
    apply forallb_copy; auto.
  - unfold UUID_GenerateV5.
    destruct (negb (Nat.eqb (length (u ns)) 16)
              || Nat.eqb (String.length name) 0); [exact Hx|].
    apply wfUUID_intro; [rewrite length_stamp, length_copy; exact Hl|].
    apply (forallb_stamp 5); [lia | rewrite length_copy; exact Hl|].
    apply forallb_copy; auto.
Qed.

End GeneratedFacts.

(** X11. Whatever generator ran, the receiver holds sixteen bytes
    afterwards, and [Parse] of its [String] gives it back with no error:
    the round trip holds for every generated identifier. *)
Theorem generated_identifiers_round_trip
        (md5sum sha1sum : list byte -> list byte)
        (c : call) (x : UUID) (st : genState) :
  (forall m, forallb isByte (md5sum m) = true) ->
  (forall m, forallb isByte (sha1sum m) = true) ->
  wfUUID x = true -> wfState st = true -> validCall c = true ->
  wfUUID (fst (exec md5sum sha1sum c x st)) = true /\
  Parse (UUID_String (fst (exec md5sum sha1sum c x st)))
  = (fst (exec md5sum sha1sum c x st), false).
Proof.
  intros Hmd5 Hsha1 Hx Hst Hc.
  pose proof (wfUUID_exec md5sum sha1sum Hmd5 Hsha1 c x st Hx Hst Hc) as Hw.
  split; [exact Hw|].
  apply RoundTrip.Parse_String; [reflexivity | exact Hw].
Qed.

Lemma generated_identifiers_round_trip_witness :
  (forall m : list byte, forallb isByte (repeat 171 16) = true) /\
  (forall m : list byte, forallb isByte (repeat 205 20) = true) /\
  wfUUID NilUUID = true /\ wfState Sample.state = true /\
  validCall (CallV5 Namespace_DNS "a") = true /\
  wfUUID (fst (exec (fun _ => repeat 171 16) (fun _ => repeat 205 20)
                    (CallV5 Namespace_DNS "a") NilUUID Sample.state)) = true /\
  Parse (UUID_String
           (fst (exec (fun _ => repeat 171 16) (fun _ => repeat 205 20)
                      (CallV5 Namespace_DNS "a") NilUUID Sample.state)))
  = (fst (exec (fun _ => repeat 171 16) (fun _ => repeat 205 20)
               (CallV5 Namespace_DNS "a") NilUUID Sample.state), false).
Proof.
  split; [intros m; reflexivity|]. split; [intros m; reflexivity|].
  split; [reflexivity|]. split; [reflexivity|]. split; [reflexivity|].
  apply (generated_identifiers_round_trip
           (fun _ => repeat 171 16) (fun _ => repeat 205 20)
           (CallV5 Namespace_DNS "a") NilUUID Sample.state);
    try reflexivity; intros m; reflexivity.
Defined.

(** X12. [GenerateV4] keeps every random bit but six: bytes other than 6
    and 8 are the random bytes, byte 6 keeps its low nibble under the
    version [0100], byte 8 its low six bits under the variant [10]; nothing
    of what the receiver held is left. *)
Theorem v4_keeps_random_bits (x : UUID) (random : list byte) :
  wfUUID x = true -> length random = 16%nat ->
  (forall i, (i < 16)%nat -> i <> 6%nat -> i <> 8%nat ->
             at_ (UUID_GenerateV4 x random) i = nth i random 0) /\
  at_ (UUID_GenerateV4 x random) 6 = 64 + nth 6 random 0 mod 16 /\
  at_ (UUID_GenerateV4 x random) 8 = 128 + nth 8 random 0 mod 64.
Proof.
  intros Hx Hr. apply Claims.wfUUID_length in Hx.
  unfold UUID_GenerateV4, randRead, at_. cbn [u].
  change 0x40 with (4 * 16).
  rewrite stamped_digest_is_spec by lia.
  unfold specNameBased.
  split; [|split].
  - intros i Hi H6 H8.
    rewrite !nth_store_other by congruence.
    rewrite nth_firstn. destruct (Nat.ltb_spec i 16); [reflexivity | lia].
  - rewrite nth_store_other by lia.
    rewrite nth_store_same by (rewrite length_firstn; lia). reflexivity.
  - rewrite nth_store_same by (rewrite length_store, length_firstn; lia).
    reflexivity.
Qed.

Lemma v4_keeps_random_bits_witness :
  wfUUID Namespace_DNS = true /\ length (repeat 255 16) = 16%nat /\
  (forall i, (i < 16)%nat -> i <> 6%nat -> i <> 8%nat ->
             at_ (UUID_GenerateV4 Namespace_DNS (repeat 255 16)) i
             = nth i (repeat 255 16) 0) /\
  at_ (UUID_GenerateV4 Namespace_DNS (repeat 255 16)) 6
  = 64 + nth 6 (repeat 255 16) 0 mod 16 /\
  at_ (UUID_GenerateV4 Namespace_DNS (repeat 255 16)) 8
  = 128 + nth 8 (repeat 255 16) 0 mod 64.
Proof.
  split; [reflexivity|]. split; [reflexivity|].
  apply (v4_keeps_random_bits Namespace_DNS (repeat 255 16)); reflexivity.
Defined.

(** X13. [GenerateV1] overwrites all sixteen bytes: what it leaves depends
    on the clock and the generation state only, not on the receiver. *)
Theorem v1_independent_of_receiver (x y : UUID) (unixNano : Z) (st : genState) :
  wfUUID x = true -> wfUUID y = true -> wfState st = true ->
  fst (UUID_GenerateV1 x unixNano st) = fst (UUID_GenerateV1 y unixNano st).
Proof.
  intros Hx Hy Hst.
  apply Claims.wfUUID_length in Hx. apply Claims.wfUUID_length in Hy.
  destruct (wfState_parts st Hst) as (_ & Hn & _).
  destruct x as [a]; destruct y as [c]; destruct st as [lt cs nd].
  cbn [u nodeId] in *.
  RoundTrip.explode a Hx. RoundTrip.explode c Hy. RoundTrip.explode nd Hn.
  reflexivity.
Qed.

Lemma v1_independent_of_receiver_witness :
  wfUUID NilUUID = true /\ wfUUID Namespace_URL = true /\
  wfState Sample.state = true /\
  fst (UUID_GenerateV1 NilUUID Sample.now Sample.state)
  = fst (UUID_GenerateV1 Namespace_URL Sample.now Sample.state).
Proof.
  split; [reflexivity|]. split; [reflexivity|]. split; [reflexivity|].
  apply (v1_independent_of_receiver NilUUID Namespace_URL Sample.now
                                    Sample.state); reflexivity.
Defined.

(** ** The first revision *)

(** X14. In the first revision, two calls of [GenerateV1] that read the
    same clock value leave the same identifier: with [<] in the clock
    check, the clock sequence is not incremented when the clock stood
    still. *)
Theorem draft_v1_repeats_at_equal_time
        (x y : Draft1.UUID) (unixNano : Z) (st : genState) :
  length (Draft1.b x) = 16%nat -> length (Draft1.b y) = 16%nat ->
  length (nodeId st) = 6%nat ->
  fst (Draft1.UUID_GenerateV1
         y unixNano (snd (Draft1.UUID_GenerateV1 x unixNano st)))
  = fst (Draft1.UUID_GenerateV1 x unixNano st).
Proof.
  intros Hx Hy Hn.
  destruct x as [a va]; destruct y as [c vc]; destruct st as [lt cs nd].
  cbn [Draft1.b nodeId] in *.
  RoundTrip.explode a Hx. RoundTrip.explode c Hy. RoundTrip.explode nd Hn.
  unfold Draft1.UUID_GenerateV1, Draft.stampClock.
  cbn [fst snd lastTime clockSeq nodeId Draft1.b].
  rewrite Z.ltb_irrefl. reflexivity.
Qed.

Lemma draft_v1_repeats_at_equal_time_witness :
  length (Draft1.b (Draft1.mkUUID (repeat 0 16) 0)) = 16%nat /\
  length (Draft1.b (Draft1.mkUUID (repeat 9 16) 4)) = 16%nat /\
  length (nodeId Sample.state) = 6%nat /\
  fst (Draft1.UUID_GenerateV1
         (Draft1.mkUUID (repeat 9 16) 4) Sample.now
         (snd (Draft1.UUID_GenerateV1 (Draft1.mkUUID (repeat 0 16) 0)
                                      Sample.now Sample.state)))
  = fst (Draft1.UUID_GenerateV1 (Draft1.mkUUID (repeat 0 16) 0)
                                Sample.now Sample.state).
Proof.
  split; [reflexivity|]. split; [reflexivity|]. split; [reflexivity|].
  apply (draft_v1_repeats_at_equal_time
           (Draft1.mkUUID (repeat 0 16) 0) (Draft1.mkUUID (repeat 9 16) 4)
           Sample.now Sample.state); reflexivity.
Defined.

(** X15. In the first revision [Version] returns the field [v]; after
    [GenerateV1] and after [GenerateV4] it agrees with the version nibble
    of byte 6 (1 and 4), and the variant bits of byte 8 are [10]. *)
Theorem draft_version_field_agrees
        (x : Draft1.UUID) (unixNano : Z) (st : genState) (random : list byte) :
  length (Draft1.b x) = 16%nat ->
  (Draft1.Version (fst (Draft1.UUID_GenerateV1 x unixNano st)) = 1 /\
   Z.shiftr (nth 6 (Draft1.b (fst (Draft1.UUID_GenerateV1 x unixNano st))) 0) 4
   = 1 /\
   Z.shiftr (nth 8 (Draft1.b (fst (Draft1.UUID_GenerateV1 x unixNano st))) 0) 6
   = 2) /\
  (Draft1.Version (Draft1.UUID_GenerateV4 x random) = 4 /\
   Z.shiftr (nth 6 (Draft1.b (Draft1.UUID_GenerateV4 x random)) 0) 4 = 4 /\
   Z.shiftr (nth 8 (Draft1.b (Draft1.UUID_GenerateV4 x random)) 0) 6 = 2).
Proof.
  intros Hx. split.
  - unfold Draft1.UUID_GenerateV1, Draft1.Version.
    cbn [fst Draft1.v Draft1.b].
    rewrite !nth_copyAt_before by (rewrite ?length_store; lia).
    split; [reflexivity|]. split.
    + repeat (rewrite nth_store_other by lia).
      rewrite nth_store_same by (rewrite ?length_store; lia).
      apply version_of_time.
    + repeat (rewrite nth_store_other by lia).
      rewrite nth_store_same by (rewrite ?length_store; lia).
      apply variant_of_clock.
  - unfold Draft1.UUID_GenerateV4, Draft1.Version, randRead.
    cbn [Draft1.v Draft1.b].
    split; [reflexivity|]. split.
    + rewrite nth_store_same by (rewrite ?length_store, length_copy; lia).
      rewrite nth_store_same by (rewrite ?length_store, length_copy; lia).
      repeat (rewrite nth_store_other by lia).
      apply (version_of_stamp _ 4). lia.
    + repeat (rewrite nth_store_other by lia).
      rewrite nth_store_same by (rewrite ?length_store, length_copy; lia).
      rewrite nth_store_same by (rewrite ?length_store, length_copy; lia).
      apply variant_of_stamp.
Qed.

Lemma draft_version_field_agrees_witness :
  length (Draft1.b (Draft1.mkUUID (repeat 0 16) 0)) = 16%nat /\
  (Draft1.Version (fst (Draft1.UUID_GenerateV1
                          (Draft1.mkUUID (repeat 0 16) 0)
                          Sample.now Sample.state)) = 1 /\
   Z.shiftr (nth 6 (Draft1.b (fst (Draft1.UUID_GenerateV1
                                     (Draft1.mkUUID (repeat 0 16) 0)
                                     Sample.now Sample.state))) 0) 4 = 1 /\
   Z.shiftr (nth 8 (Draft1.b (fst (Draft1.UUID_GenerateV1
                                     (Draft1.mkUUID (repeat 0 16) 0)
                                     Sample.now Sample.state))) 0) 6 = 2) /\
  (Draft1.Version (Draft1.UUID_GenerateV4 (Draft1.mkUUID (repeat 0 16) 0)
                                          (repeat 255 16)) = 4 /\
   Z.shiftr (nth 6 (Draft1.b (Draft1.UUID_GenerateV4
                                (Draft1.mkUUID (repeat 0 16) 0)
                                (repeat 255 16))) 0) 4 = 4 /\
   Z.shiftr (nth 8 (Draft1.b (Draft1.UUID_GenerateV4
                                (Draft1.mkUUID (repeat 0 16) 0)
                                (repeat 255 16))) 0) 6 = 2).
Proof.
  split; [reflexivity|].
  apply (draft_version_field_agrees (Draft1.mkUUID (repeat 0 16) 0)
                                    Sample.now Sample.state (repeat 255 16)).
  reflexivity.
Defined.

(** ** The second revision *)

Ltac explode_fields x H :=
  destruct x as [f1 f2 f3 f4 f5 f6];
  unfold Draft2.wf in H; cbn [Draft2.tl Draft2.tm Draft2.thv Draft2.csh
                                Draft2.csl Draft2.n] in H;
  repeat (apply andb_prop in H;
          let H' := fresh "Hf" in destruct H as [H H']);
  repeat match goal with
         | E : Nat.eqb (length _) _ = true |- _ => apply Nat.eqb_eq in E
         end.

Lemma Draft2_lengths x :
  Draft2.wf x = true ->
  length (Draft2.tl x) = 4%nat /\ length (Draft2.tm x) = 2%nat /\
  length (Draft2.thv x) = 2%nat /\ length (Draft2.csh x) = 1%nat /\
  length (Draft2.csl x) = 1%nat /\ length (Draft2.n x) = 6%nat.
Proof.
  intros H. explode_fields x H.
  cbn [Draft2.tl Draft2.tm Draft2.thv Draft2.csh Draft2.csl Draft2.n].
  auto 10.
Qed.

Ltac explode_draft2 x H :=
  let L := fresh "L" in
  pose proof (Draft2_lengths x H) as L;
  destruct x as [f1 f2 f3 f4 f5 f6];
  cbn [Draft2.tl Draft2.tm Draft2.thv Draft2.csh Draft2.csl Draft2.n] in L;
  destruct L as (L1 & L2 & L3 & L4 & L5 & L6);
  RoundTrip.explode f1 L1; RoundTrip.explode f2 L2; RoundTrip.explode f3 L3;
  RoundTrip.explode f4 L4; RoundTrip.explode f5 L5; RoundTrip.explode f6 L6.

(** X16. The second revision, with one array per field, leaves the same
    sixteen bytes in layout order as the first: for [GenerateV1] from the
    same clock value and state, for [GenerateV4] from the same random
    bytes, and [String] prints them alike; [Version] is the nibble the
    first revision keeps in [v]. *)
Theorem draft2_writes_the_same_bytes
        (x : Draft2.UUID) (ver : byte) (unixNano : Z) (st : genState)
        (r1 r2 r3 r4 r5 r6 : list byte) :
  Draft2.wf x = true ->
  length r1 = 4%nat -> length r2 = 2%nat -> length r3 = 2%nat ->
  length r4 = 1%nat -> length r5 = 1%nat -> length r6 = 6%nat ->
  let x1 := Draft1.mkUUID (Draft2.flat x) ver in
  Draft2.flat (fst (Draft2.UUID_GenerateV1 x unixNano st))
  = Draft1.b (fst (Draft1.UUID_GenerateV1 x1 unixNano st)) /\
  snd (Draft2.UUID_GenerateV1 x unixNano st)
  = snd (Draft1.UUID_GenerateV1 x1 unixNano st) /\
  Draft2.Version (fst (Draft2.UUID_GenerateV1 x unixNano st))
  = Draft1.Version (fst (Draft1.UUID_GenerateV1 x1 unixNano st)) /\
  Draft2.flat (Draft2.UUID_GenerateV4 x r1 r2 r3 r4 r5 r6)
  = Draft1.b (Draft1.UUID_GenerateV4
                x1 (r1 ++ r2 ++ r3 ++ r4 ++ r5 ++ r6)) /\
  Draft2.Version (Draft2.UUID_GenerateV4 x r1 r2 r3 r4 r5 r6)
  = Draft1.Version (Draft1.UUID_GenerateV4
                      x1 (r1 ++ r2 ++ r3 ++ r4 ++ r5 ++ r6)) /\
  Draft2.UUID_String x = Draft1.UUID_String x1.
Proof.
  intros Hx H1 H2 H3 H4 H5 H6. cbv zeta.
  explode_draft2 x Hx.
  RoundTrip.explode r1 H1. RoundTrip.explode r2 H2. RoundTrip.explode r3 H3.
  RoundTrip.explode r4 H4. RoundTrip.explode r5 H5. RoundTrip.explode r6 H6.
  split; [reflexivity|]. split; [reflexivity|].
  split.
  { unfold Draft2.Version, Draft2.UUID_GenerateV1, Draft1.Version,
      Draft1.UUID_GenerateV1.
    cbn [fst Draft2.thv Draft1.v store nth].
    apply version_of_time. }
  split; [reflexivity|].
  split; [|reflexivity].
  unfold Draft2.Version, Draft2.UUID_GenerateV4, Draft1.Version,
    Draft1.UUID_GenerateV4, randRead.
  cbn [Draft2.thv Draft1.v store nth copy].
  apply (version_of_stamp _ 4). lia.
Qed.

Lemma draft2_writes_the_same_bytes_witness :
  Draft2.wf (Draft2.unflat (repeat 0 16)) = true /\
  length [1; 2; 3; 4] = 4%nat /\ length [5; 6] = 2%nat /\
  length [7; 8] = 2%nat /\ length [9] = 1%nat /\ length [10] = 1%nat /\
  length [11; 12; 13; 14; 15; 16] = 6%nat /\
  Draft2.flat (fst (Draft2.UUID_GenerateV1 (Draft2.unflat (repeat 0 16))
                                           Sample.now Sample.state))
  = Draft1.b (fst (Draft1.UUID_GenerateV1
                     (Draft1.mkUUID
                        (Draft2.flat (Draft2.unflat (repeat 0 16))) 0)
                     Sample.now Sample.state)) /\
  snd (Draft2.UUID_GenerateV1 (Draft2.unflat (repeat 0 16))
                              Sample.now Sample.state)
  = snd (Draft1.UUID_GenerateV1
           (Draft1.mkUUID (Draft2.flat (Draft2.unflat (repeat 0 16))) 0)
           Sample.now Sample.state) /\
  Draft2.Version (fst (Draft2.UUID_GenerateV1 (Draft2.unflat (repeat 0 16))
                                              Sample.now Sample.state))
  = Draft1.Version (fst (Draft1.UUID_GenerateV1
                           (Draft1.mkUUID
                              (Draft2.flat (Draft2.unflat (repeat 0 16))) 0)
                           Sample.now Sample.state)) /\
  Draft2.flat (Draft2.UUID_GenerateV4 (Draft2.unflat (repeat 0 16))
                 [1; 2; 3; 4] [5; 6] [7; 8] [9] [10] [11; 12; 13; 14; 15; 16])
  = Draft1.b (Draft1.UUID_GenerateV4
                (Draft1.mkUUID (Draft2.flat (Draft2.unflat (repeat 0 16))) 0)
                ([1; 2; 3; 4] ++ [5; 6] ++ [7; 8] ++ [9] ++ [10]
                              ++ [11; 12; 13; 14; 15; 16])) /\
  Draft2.Version (Draft2.UUID_GenerateV4 (Draft2.unflat (repeat 0 16))
                    [1; 2; 3; 4] [5; 6] [7; 8] [9] [10]
                    [11; 12; 13; 14; 15; 16])
  = Draft1.Version (Draft1.UUID_GenerateV4
                      (Draft1.mkUUID
                         (Draft2.flat (Draft2.unflat (repeat 0 16))) 0)
                      ([1; 2; 3; 4] ++ [5; 6] ++ [7; 8] ++ [9] ++ [10]
                                    ++ [11; 12; 13; 14; 15; 16])) /\
  Draft2.UUID_String (Draft2.unflat (repeat 0 16))
  = Draft1.UUID_String
      (Draft1.mkUUID (Draft2.flat (Draft2.unflat (repeat 0 16))) 0).
Proof.
  split; [reflexivity|]. do 6 (split; [reflexivity|]).
  apply (draft2_writes_the_same_bytes
           (Draft2.unflat (repeat 0 16)) 0 Sample.now Sample.state
           [1; 2; 3; 4] [5; 6] [7; 8] [9] [10] [11; 12; 13; 14; 15; 16]);
    reflexivity.
Defined.

Lemma Draft2_flat_bytes x :
  Draft2.wf x = true ->
  length (Draft2.flat x) = 16%nat /\ forallb isByte (Draft2.flat x) = true.
Proof.
  intros H. pose proof (Draft2_lengths x H) as (L1 & L2 & L3 & L4 & L5 & L6).
  explode_fields x H.
  unfold Draft2.flat.
  cbn [Draft2.tl Draft2.tm Draft2.thv Draft2.csh Draft2.csl Draft2.n] in *.
  split.
  - rewrite !length_app. lia.
  - unfold byte in *. rewrite !forallb_app.
    repeat match goal with
           | E : forallb isByte _ = true |- _ => rewrite E; clear E
           end.
    reflexivity.
Qed.

Lemma Draft2_unflat_flat x : Draft2.wf x = true -> Draft2.unflat (Draft2.flat x) = x.
Proof. intros H. explode_draft2 x H. reflexivity. Qed.

(** X17. The round trip holds in the second revision too: [Parse] of the
    [String] of an identifier reports no error and leaves that identifier,
    field by field, whatever the receiver held. *)
Theorem draft2_round_trip (x y : Draft2.UUID) :
  Draft2.wf x = true -> Draft2.wf y = true ->
  Draft2.UUID_Parse y (Draft2.UUID_String x) = (x, false) /\
  Draft2.Parse (Draft2.UUID_String x) = (x, false).
Proof.
  intros Hx Hy.
  destruct (Draft2_flat_bytes x Hx) as [Lx Bx].
  destruct (Draft2_flat_bytes y Hy) as [Ly _].
  assert (Es : Draft2.UUID_String x = UUID_String (mkUUID (Draft2.flat x))).
  { explode_draft2 x Hx. reflexivity. }
  assert (P : forall a, length a = 16%nat ->
                        Draft2.UUID_Parse (Draft2.unflat a)
                                          (Draft2.UUID_String x)
                        = (x, false)).
  { intros a La. rewrite Es.
    assert (Ef : Draft2.flat (Draft2.unflat a) = a).
    { clear - La. RoundTrip.explode a La. reflexivity. }
    pose proof (RoundTrip.Parse_String (mkUUID a) (mkUUID (Draft2.flat x)) La
                                       (wfUUID_intro _ Lx Bx)) as R.
    unfold UUID_Parse in R. cbn [u] in R.
    unfold Draft2.UUID_Parse. rewrite Ef.
    destruct (Sscanf (UUID_String (mkUUID (Draft2.flat x))) uuidFormat a)
      as [[a' n'] [e|]]; [discriminate R|].
    injection R as R. subst a'.
    rewrite Draft2_unflat_flat by assumption. reflexivity. }
  split.
  - rewrite <- (Draft2_unflat_flat y Hy). apply P. exact Ly.
  - unfold Draft2.Parse. apply P. reflexivity.
Qed.

Lemma draft2_round_trip_witness :
  Draft2.wf (Draft2.unflat (u Namespace_DNS)) = true /\
  Draft2.wf (Draft2.unflat (repeat 0 16)) = true /\
  Draft2.UUID_Parse (Draft2.unflat (repeat 0 16))
                    (Draft2.UUID_String (Draft2.unflat (u Namespace_DNS)))
  = (Draft2.unflat (u Namespace_DNS), false) /\
  Draft2.Parse (Draft2.UUID_String (Draft2.unflat (u Namespace_DNS)))
  = (Draft2.unflat (u Namespace_DNS), false).
Proof.
  split; [reflexivity|]. split; [reflexivity|].
  apply (draft2_round_trip (Draft2.unflat (u Namespace_DNS))
                           (Draft2.unflat (repeat 0 16))); reflexivity.
Defined.

(** ** Inputs [Parse] rejects *)

Lemma SkipSpace_suffix lim inp : forall cnt s1,
  SkipSpace lim inp cnt = Ok s1 -> exists pre, inp = pre ++ rs s1.
Proof.
  induction inp as [|r t IH]; intros cnt s1 H.
  - rewrite SkipSpace_nil in H. injection H as <-. exists []. reflexivity.
  - cbn [SkipSpace] in H.
    destruct (lim <=? cnt); [injection H as <-; exists []; reflexivity|].
    destruct ((r =? 13) && peekNewline lim t (cnt + 1)).
    + apply IH in H. destruct H as [pre ->]. exists (r :: pre). reflexivity.
    + destruct (r =? 10); [discriminate|].
      destruct (isSpace r).
      * apply IH in H. destruct H as [pre ->]. exists (r :: pre). reflexivity.
      * injection H as <-. exists []. reflexivity.
Qed.

Lemma acceptDigits_suffix lim inp : forall cnt buf,
  exists pre, inp = pre ++ rs (snd (acceptDigits lim inp cnt buf)).
Proof.
  induction inp as [|r t IH]; intros cnt buf; cbn [acceptDigits].
  - destruct (lim <=? cnt); exists []; reflexivity.
  - destruct (lim <=? cnt); [exists []; reflexivity|].
    destruct (isHexDigit r); [|exists []; reflexivity].
    destruct (IH (cnt + 1) (buf ++ [r])) as [pre E].
    exists (r :: pre). cbn [app]. rewrite <- E. reflexivity.
Qed.

Lemma scanUint8_consumes lim s v s' :
  scanUint8 lim s = Ok (v, s') ->
  exists pre, rs s = pre ++ rs s' /\ pre <> [].
Proof.
  unfold scanUint8. intros H.
  destruct (SkipSpace lim (rs s) (count s)) as [s1|] eqn:E1; [|discriminate].
  cbn [bind] in H.
  destruct (notEOF lim s1); [|discriminate]. cbn [bind] in H.
  destruct (scanNumber lim s1) as [ts|] eqn:E2; [|discriminate].
  cbn [bind] in H.
  destruct (ParseUint (fst ts)) as [i|]; [|discriminate]. cbn [bind] in H.
  destruct (i mod 2 ^ 8 =? i); [|discriminate].
  injection H as _ <-.
  apply SkipSpace_suffix in E1. destruct E1 as [p1 E1].
  unfold scanNumber in E2.
  destruct (notEOF lim s1); [|discriminate]. cbn [bind] in E2.
  destruct (rs s1) as [|r t] eqn:Er; [discriminate|].
  destruct (isHexDigit r); [|discriminate].
  injection E2 as <-.
  destruct (acceptDigits_suffix lim t (count s1 + 1) [r]) as [p2 E3].
  exists (p1 ++ r :: p2). split.
  - rewrite E1. rewrite <- app_assoc. cbn [app]. rewrite <- E3. reflexivity.
  - destruct p1; discriminate.
Qed.

Lemma doScanf_consumes format : forall a k s a' n,
  doScanf format a k s = (a', n, None) ->
  exists pre rest,
    rs s = pre ++ rest /\ (length format <= length pre)%nat /\
    forall c, Forall (litIs c) format ->
              (countLits format <= count_occ Z.eq_dec pre c)%nat.
Proof.
  induction format as [|d f IH]; intros a k s a' n H; cbn [doScanf] in H.
  - exists [], (rs s). cbn. repeat split; auto.
  - destruct d as [c'|w].
    + unfold advanceLit in H.
      destruct (hugeWid <=? count s); [discriminate|].
      destruct (rs s) as [|r t] eqn:Er; [discriminate|].
      destruct (Z.eqb_spec r c') as [->|]; [|discriminate].
      apply IH in H. cbn [rs] in H.
      destruct H as (pre & rest & E & Hl & Hc).
      exists (c' :: pre), rest. subst t. repeat split; [cbn; lia|].
      intros c Hf. inversion Hf as [|? ? Hd Hf']; subst. cbn in Hd. subst c'.
      cbn [countLits count_occ].
      destruct (Z.eq_dec c c); [|congruence].
      specialize (Hc c Hf'). unfold rune in *. lia.
    + destruct (SkipSpace hugeWid (rs s) (count s)) as [s1|] eqn:E1;
        [|discriminate].
      destruct (Nat.leb (length a) k); [discriminate|].
      destruct (scanUint8 (Z.min hugeWid (count s1 + w)) s1)
        as [[v s2]|] eqn:E2; [|discriminate].
      apply IH in H. destruct H as (pre & rest & E & Hl & Hc).
      apply SkipSpace_suffix in E1. destruct E1 as [p1 E1].
      apply scanUint8_consumes in E2. destruct E2 as (p2 & E2 & Hne).
      exists (p1 ++ p2 ++ pre), rest. repeat split.
      * rewrite E1, E2, E, <- !app_assoc. reflexivity.
      * rewrite !length_app. cbn [length].
        destruct p2; [congruence|]. cbn [length]. lia.
      * intros c Hf. inversion Hf as [|? ? Hd Hf']; subst.
        specialize (Hc c Hf'). cbn [countLits]. unfold rune in *.
        rewrite !count_occ_app. lia.
Qed.

Lemma length_decodeRunes_fuel fuel : forall p,
  (length p <= fuel)%nat -> (length (decodeRunes p) <= length p)%nat.
Proof.
  unfold rune, byte in *.
  induction fuel as [|fuel IH]; intros p Hp.
  - destruct p; [cbn; (unfold rune, byte in *; lia) | cbn in Hp; (unfold rune, byte in *; lia)].
  - destruct p as [|p0 t1]; [cbn; (unfold rune, byte in *; lia)|].
    cbn [length] in Hp.
    assert (H1 : (length (decodeRunes t1) <= length t1)%nat)
      by (apply IH; (unfold rune, byte in *; lia)).
    cbn [decodeRunes length].
    destruct (p0 <? 128); [cbn [length decodeRunes] in *; (unfold rune, byte in *; lia)|].
    destruct (first p0) as [[[sz lo] hi]|]; [|cbn [length decodeRunes] in *; (unfold rune, byte in *; lia)].
    destruct t1 as [|b1 t2]; [cbn [length decodeRunes] in *; (unfold rune, byte in *; lia)|].
    cbn [length] in *.
    assert (H2 : (length (decodeRunes t2) <= length t2)%nat)
      by (apply IH; (unfold rune, byte in *; lia)).
    destruct ((b1 <? lo) || (hi <? b1)); [cbn [length] in *; (unfold rune, byte in *; lia)|].
    destruct (sz <=? 2); [cbn [length decodeRunes] in *; (unfold rune, byte in *; lia)|].
    destruct t2 as [|b2 t3]; [cbn [length] in *; (unfold rune, byte in *; lia)|].
    cbn [length] in *.
    assert (H3 : (length (decodeRunes t3) <= length t3)%nat)
      by (apply IH; (unfold rune, byte in *; lia)).
    destruct (negb (isCont b2)); [cbn [length] in *; (unfold rune, byte in *; lia)|].
    destruct (sz <=? 3); [cbn [length decodeRunes] in *; (unfold rune, byte in *; lia)|].
    destruct t3 as [|b3 t4]; [cbn [length] in *; (unfold rune, byte in *; lia)|].
    cbn [length] in *.
    assert (H4 : (length (decodeRunes t4) <= length t4)%nat)
      by (apply IH; (unfold rune, byte in *; lia)).
    destruct (negb (isCont b3)); cbn [length] in *; (unfold rune, byte in *; lia).
Qed.

Lemma length_runes s : (length (runes s) <= String.length s)%nat.
Proof.
  unfold runes.
  assert (E : String.length s = length (bytesOf s)).
  { unfold bytesOf. rewrite length_map.
    induction s as [|c t IH]; cbn; [reflexivity | rewrite IH; reflexivity]. }
  rewrite E. apply (length_decodeRunes_fuel (length (bytesOf s))). lia.
Qed.

(** X18. [Parse] reports an error on every string of fewer than 20 bytes
    (sixteen fields of at least one digit and four hyphens; the empty
    string in particular), and on every string in which fewer than four
    hyphens occur, whatever the receiver. *)
Theorem parse_rejects_short_or_hyphenless (x : UUID) (s : string) :
  (String.length s < 20)%nat \/
  (count_occ Z.eq_dec (runes s) 45%Z < 4)%nat ->
  snd (UUID_Parse x s) = true.
Proof.
  intros H. unfold UUID_Parse, Sscanf.
  destruct (doScanf uuidFormat (u x) 0 (newScanState (runes s)))
    as [[a' n] [e|]] eqn:E; [reflexivity|].
  exfalso.
  apply doScanf_consumes in E. cbn [rs newScanState] in E.
  destruct E as (pre & rest & E & Hl & Hc).
  specialize (Hc 45 ltac:(cbv [uuidFormat]; repeat constructor)).
  change (length uuidFormat) with 20%nat in Hl.
  change (countLits uuidFormat) with 4%nat in Hc.
  pose proof (length_runes s) as Hr.
  rewrite E in H, Hr. unfold rune in *.
  rewrite count_occ_app in H. rewrite length_app in Hr.
  lia.
Qed.

Lemma parse_rejects_short_or_hyphenless_witness :
  ((String.length "" < 20)%nat \/
   (count_occ Z.eq_dec (runes "") 45%Z < 4)%nat) /\
  snd (UUID_Parse Namespace_DNS "") = true.
Proof.
  assert (H : (String.length "" < 20)%nat \/
              (count_occ Z.eq_dec (runes "") 45%Z < 4)%nat)
    by (left; cbn; lia).
  split; [exact H|].
  exact (parse_rejects_short_or_hyphenless Namespace_DNS "" H).
Defined.

End Extras.
